(** * ai-product-recommender: the recommendation request cycle and the card
      rendering, embedded from the TypeScript sources.

    Sources embedded here:
    - [ProductRecommender] (the component with [handleSend], the
      [useEffect] keyed on [query] and [fetchData]) in its three variants;
    - [ProductCard] with [renderStars] in its two fractional-fill variants.

    Conventions.
    - A JavaScript string is the list of its UTF-16 code units.
    - A JavaScript number is one of NaN, -Infinity, a finite value,
      +Infinity, the finite values being rationals.  A product is rounded
      to the nearest value with a 53-bit significand, ties to even, as
      binary64 does; the handling of NaN and the infinities follows
      ECMAScript.  The same star loop is also written on primitive
      binary64 floats and the two are compared on sample ratings.
    - React state is a record; what [fetchData] does ([setLoading], the
      POST, [setProducts], [console.error]) is recorded in a log, so that
      the order in which the source performs it can be stated. *)

From Stdlib Require Import List ZArith NArith QArith Qround Qpower Bool String
  Ascii Lia Lqa.
From Stdlib Require PrimFloat FloatOps SpecFloat.
Import ListNotations.

(** ** JavaScript strings *)

Module JsString.

Definition jsstring := list N.

(** A string literal of the source (ASCII only). *)
Definition lit (s : string) : jsstring :=
  map N_of_ascii (list_ascii_of_string s).

(** ECMAScript WhiteSpace and LineTerminator code points, the set that
    [String.prototype.trim] strips. *)
Definition isWhiteSpace (c : N) : bool :=
  ((c =? 0x0009) || (c =? 0x000A) || (c =? 0x000B) || (c =? 0x000C)
   || (c =? 0x000D) || (c =? 0x0020) || (c =? 0x00A0) || (c =? 0x1680)
   || ((0x2000 <=? c) && (c <=? 0x200A))
   || (c =? 0x2028) || (c =? 0x2029) || (c =? 0x202F) || (c =? 0x205F)
   || (c =? 0x3000) || (c =? 0xFEFF))%N.

Fixpoint trimStart (s : jsstring) : jsstring :=
  match s with
  | [] => []
  | c :: r => if isWhiteSpace c then trimStart r else s
  end.

Definition trimEnd (s : jsstring) : jsstring := rev (trimStart (rev s)).

(** [s.trim()] *)
Definition trim (s : jsstring) : jsstring := trimEnd (trimStart s).

(** ToBoolean on a string: only the empty string is falsy. *)
Definition truthy (s : jsstring) : bool :=
  match s with [] => false | _ :: _ => true end.

(** [Object.is] on two strings, the comparison React applies to a state
    value and to an effect dependency. *)
Fixpoint same (a b : jsstring) : bool :=
  match a, b with
  | [], [] => true
  | x :: a', y :: b' => (x =? y)%N && same a' b'
  | _, _ => false
  end.

(** A template literal slot [${v}] for a value that is a string or
    [undefined]. *)
Definition interpolate (v : option jsstring) : jsstring :=
  match v with Some s => s | None => lit "undefined" end.

Definition whitespaceOnly (s : jsstring) : Prop :=
  forallb isWhiteSpace s = true.

End JsString.
Import JsString.

(** ** JavaScript numbers *)

Module JsNumber.

Inductive number : Type :=
| NaN
| NegInfinity
| Finite (q : Q)
| Infinity.

Definition ofZ (z : Z) : number := Finite (inject_Z z).

(** Rounding of a rational to the nearest integer, ties to the even
    one. *)
Definition rne (t : Q) : Z :=
  let f := Qfloor t in
  match (t - inject_Z f ?= 1 # 2)%Q with
  | Lt => f
  | Gt => (f + 1)%Z
  | Eq => if Z.even f then f else (f + 1)%Z
  end.

(** For [0 < x], the exponent [e] with [2^(e+52) <= x < 2^(e+53)]: the
    weight of the last of 53 significant bits of [x]. *)
Definition exponentOf (x : Q) : Z :=
  let e0 := (Z.log2 (Qnum x) - Z.log2 (Zpos (Qden x)) - 53)%Z in
  if Qle_bool (2 ^ (e0 + 53)) x then (e0 + 1)%Z else e0.

Definition roundPositive (x : Q) : Q :=
  (inject_Z (rne (x / 2 ^ exponentOf x)) * 2 ^ exponentOf x)%Q.

(** The nearest rational with a 53-bit significand, ties to even: the
    rounding of binary64 wherever the result is neither subnormal nor
    beyond the largest float. *)
Definition round53 (x : Q) : Q :=
  match (0 ?= Qred x)%Q with
  | Eq => 0%Q
  | Lt => Qred (roundPositive (Qred x))
  | Gt => Qred (- roundPositive (- Qred x))
  end.

(** [a - b].  The difference is kept exact: the source subtracts only
    [i - 1], one of 0..4, from the rating and clamps the result to [0,1];
    on a binary64 rating a difference inside [0,1] is exact and a rounded
    difference outside it stays outside, so the clamped value is that of
    the exact difference. *)
Definition sub (a b : number) : number :=
  match a, b with
  | NaN, _ | _, NaN => NaN
  | Infinity, Infinity | NegInfinity, NegInfinity => NaN
  | Infinity, _ | _, NegInfinity => Infinity
  | NegInfinity, _ | _, Infinity => NegInfinity
  | Finite x, Finite y => Finite (x - y)
  end.

Definition Qsign (x : Q) : comparison := (0 ?= x)%Q.

(** [a * b], rounded as binary64 rounds.  The exponent range is not
    bounded; the only product of the source is a value of [0,1] times
    100, which neither overflows nor loses bits to a subnormal result. *)
Definition mul (a b : number) : number :=
  match a, b with
  | NaN, _ | _, NaN => NaN
  | Finite x, Finite y => Finite (round53 (x * y))
  | Infinity, Infinity | NegInfinity, NegInfinity => Infinity
  | Infinity, NegInfinity | NegInfinity, Infinity => NegInfinity
  | Infinity, Finite y | Finite y, Infinity =>
      match Qsign y with Eq => NaN | Lt => Infinity | Gt => NegInfinity end
  | NegInfinity, Finite y | Finite y, NegInfinity =>
      match Qsign y with Eq => NaN | Lt => NegInfinity | Gt => Infinity end
  end.

(** [Math.max(a, b)]: NaN if either argument is NaN. *)
Definition Math_max (a b : number) : number :=
  match a, b with
  | NaN, _ | _, NaN => NaN
  | Infinity, _ | _, Infinity => Infinity
  | NegInfinity, y => y
  | x, NegInfinity => x
  | Finite x, Finite y => if Qle_bool x y then Finite y else Finite x
  end.

(** [Math.min(a, b)]: NaN if either argument is NaN. *)
Definition Math_min (a b : number) : number :=
  match a, b with
  | NaN, _ | _, NaN => NaN
  | NegInfinity, _ | _, NegInfinity => NegInfinity
  | Infinity, y => y
  | x, Infinity => x
  | Finite x, Finite y => if Qle_bool x y then Finite x else Finite y
  end.

(** Numeric equality of two numbers ([===], which NaN fails). *)
Definition numEq (a b : number) : Prop :=
  match a, b with
  | Finite x, Finite y => (x == y)%Q
  | Infinity, Infinity | NegInfinity, NegInfinity => True
  | _, _ => False
  end.

Definition numEqb (a b : number) : bool :=
  match a, b with
  | Finite x, Finite y => Qeq_bool x y
  | Infinity, Infinity | NegInfinity, NegInfinity => true
  | _, _ => false
  end.

(** The number is a finite value between [lo] and [hi]. *)
Definition between (lo hi : Q) (a : number) : Prop :=
  match a with
  | Finite x => (lo <= x /\ x <= hi)%Q
  | _ => False
  end.

End JsNumber.
Import JsNumber.

(** ** ProductCard: the star row and the card *)

Module Card.

(** One element pushed by [renderStars]: the outer [div] with its [key],
    the edge of the square in px, and the percentage written into the
    [width] of the coloured overlay. *)
Record Star : Type := mkStar {
  key : Z;
  size : Z;
  filledPercentage : number
}.

(** [Math.min(Math.max(rating - (i - 1), 0), 1)], the fill of star [i]
    as a fraction. *)
Definition fractionOf (rating : number) (i : Z) : number :=
  Math_min (Math_max (sub rating (ofZ (i - 1))) (ofZ 0)) (ofZ 1).

(** [Math.min(Math.max(rating - (i - 1), 0), 1) * 100] *)
Definition fillOf (rating : number) (i : Z) : number :=
  mul (fractionOf rating i) (ofZ 100).

(** [for (let i = 1; i <= 5; i++) { stars.push(...) }]; [budget] bounds
    the number of tests of the loop condition. *)
Fixpoint starLoop (px : Z) (rating : number) (budget : nat) (i : Z)
                  (stars : list Star) : list Star :=
  match budget with
  | O => stars
  | S budget' =>
      if (i <=? 5)%Z
      then starLoop px rating budget' (i + 1)%Z
                    (stars ++ [mkStar i px (fillOf rating i)])
      else stars
  end.

(** [renderStars] of ProductCard.tsx (the card with the purchase link,
    16px stars). *)
Definition renderStars (rating : number) : list Star :=
  starLoop 16 rating 6 1 [].

(** [renderStars] of the earlier card without the link (14px stars). *)
Definition renderStars14 (rating : number) : list Star :=
  starLoop 14 rating 6 1 [].

Definition fills (stars : list Star) : list number :=
  map filledPercentage stars.

Definition countFill (pct : Z) (stars : list Star) : nat :=
  List.length (filter (fun s => numEqb (filledPercentage s) (ofZ pct)) stars).

(** The fill fraction in the words of the specification:
    [rating - (starIndex - 1)] clamped to [0,1]. *)
Definition clampUnit (x : Q) : Q :=
  if Qle_bool x 0 then 0 else if Qle_bool 1 x then 1 else x.

Definition specFillFraction (rating : Q) (starIndex : Z) : Q :=
  clampUnit (rating - inject_Z (starIndex - 1)).


(** The props of the card ([ProductCardProps] of ProductCard.tsx). *)
Record ProductCardProps : Type := mkProps {
  imageUrl : jsstring;
  title : jsstring;
  price : jsstring;
  rating : number;
  rating_count : number;
  description : jsstring;
  link : jsstring
}.

(** What the card shows: the [src] and [alt] of the image, the heading,
    the star row, the review count text, the price, the [href] of the
    anchor around the purchase button (opened with [target="_blank"]), and
    the description paragraph. *)
Record CardView : Type := mkCardView {
  imgSrc : jsstring;
  imgAlt : jsstring;
  heading : jsstring;
  starRow : list Star;
  reviewText : jsstring;
  priceText : jsstring;
  buyHref : jsstring;
  paragraph : jsstring
}.

Section Component.

(** [Number(n).toLocaleString()] in the locale of the browser. *)
Variable toLocaleString : number -> jsstring.

Definition ProductCard (props : ProductCardProps) : CardView :=
  {| imgSrc := imageUrl props;
     imgAlt := title props;
     heading := title props;
     starRow := renderStars (rating props);
     reviewText :=
       lit "(" ++ toLocaleString (rating_count props)
           ++ [32%N; 100%N; 101%N; 287%N; 101%N; 114%N; 108%N; 101%N; 110%N;
               100%N; 105%N; 114%N; 109%N; 101%N; 41%N];
     priceText := price props;
     buyHref := link props;
     paragraph := description props |}.

End Component.

End Card.

(** ** The star row on binary64

    The same loop with every number a binary64 float, as the engine
    computes it.  It is evaluated on concrete ratings to check the number
    model above against IEEE 754 arithmetic. *)

Module Binary64.
Import PrimFloat.
Local Open Scope float_scope.

(** [Math.max(a, b)]: NaN if either argument is NaN; +0 is larger
    than -0. *)
Definition Math_max (a b : float) : float :=
  if is_nan a || is_nan b then nan
  else if a <? b then b
  else if b <? a then a
  else if get_sign a then b else a.

(** [Math.min(a, b)]: NaN if either argument is NaN; -0 is smaller
    than +0. *)
Definition Math_min (a b : float) : float :=
  if is_nan a || is_nan b then nan
  else if a <? b then a
  else if b <? a then b
  else if get_sign a then a else b.

(** [Math.min(Math.max(rating - (i - 1), 0), 1) * 100] *)
Definition fillOf (rating i : float) : float :=
  Math_min (Math_max (rating - (i - 1)) 0) 1 * 100.

(** The loop of [renderStars], collecting the key and the fill of each
    star. *)
Fixpoint starLoop (rating : float) (budget : nat) (i : float)
                  (stars : list (float * float)) : list (float * float) :=
  match budget with
  | O => stars
  | S budget' =>
      if i <=? 5
      then starLoop rating budget' (i + 1) (stars ++ [(i, fillOf rating i)])
      else stars
  end.

Definition renderStars (rating : float) : list (float * float) :=
  starLoop rating 6 1 [].

(** The rational a float stands for (none for NaN and the infinities). *)
Definition toQ (f : float) : option Q :=
  match FloatOps.Prim2SF f with
  | SpecFloat.S754_zero _ => Some 0%Q
  | SpecFloat.S754_finite s m e =>
      Some ((if s then - inject_Z (Zpos m) else inject_Z (Zpos m)) * 2 ^ e)%Q
  | _ => None
  end.

Definition sameValue (a b : option Q) : bool :=
  match a, b with
  | Some x, Some y => Qeq_bool x y
  | None, None => true
  | _, _ => false
  end.

Definition finiteValue (n : number) : option Q :=
  match n with Finite q => Some q | _ => None end.

Fixpoint allSame (a b : list (option Q)) : bool :=
  match a, b with
  | [], [] => true
  | x :: a', y :: b' => sameValue x y && allSame a' b'
  | _, _ => false
  end.

(** On the rating [r], the loop on floats and the loop on the number
    model write the same five percentages. *)
Definition agreesAt (r : float) : bool :=
  match toQ r with
  | Some q =>
      allSame (map (fun s => toQ (snd s)) (renderStars r))
              (map (fun s => finiteValue (Card.filledPercentage s))
                   (Card.renderStars (Finite q)))
  | None => false
  end.

(** Ratings on which the two loops are compared, written exactly: the
    floats nearest to 4.7, 0.07, 0.1, 0.29, 0.57, 1.1, 2.2, 2.675, 3.3,
    4.35, 4.4 and 1/3, whose product with 100 is not exact; the floats
    next to 4, 1 and 5; the smallest subnormal, a larger subnormal, the
    smallest normal and the largest float; 123.456, -0.5, -4.7, 0, 3.5
    and 5. *)
Definition sampleRatings : list float :=
  [0x1.2cccccccccccdp+2; 0x1.1eb851eb851ecp-4; 0x1.999999999999ap-4;
   0x1.28f5c28f5c28fp-2; 0x1.23d70a3d70a3dp-1; 0x1.199999999999ap+0;
   0x1.199999999999ap+1; 0x1.5666666666666p+1; 0x1.a666666666666p+1;
   0x1.1666666666666p+2; 0x1.199999999999ap+2; 0x1.5555555555555p-2;
   0x1.fffffffffffffp+1; 0x1.0000000000001p+2; 0x1.fffffffffffffp-1;
   0x1.0000000000001p+0; 0x1.3ffffffffffffp+2; 0x0.0000000000001p-1022;
   0x0.00000000007e8p-1022; 0x1.0000000000000p-1022;
   0x1.fffffffffffffp+1023; 0x1.edd2f1a9fbe77p+6; (-0x1.0000000000000p-1);
   (-0x1.2cccccccccccdp+2); 0; 0x1.c000000000000p+1;
   0x1.4000000000000p+2]%float.

End Binary64.

(** ** ProductRecommender: state, request and response *)

Module Recommender.

(** [interface Product] *)
Record Product : Type := mkProduct {
  title : jsstring;
  price : number;
  rating : number;
  rating_count : number;
  description : jsstring;
  image : option jsstring;   (* string | null *)
  link : jsstring
}.

(** The four [useState] cells of the component. *)
Record State : Type := mkState {
  query : jsstring;
  input : jsstring;
  products : list Product;
  loading : bool
}.

Inductive Method : Type := GET | POST.

(** A call of axios: the method, the URL and the JSON object sent, as the
    list of its fields. *)
Record Request : Type := mkRequest {
  method : Method;
  url : jsstring;
  body : list (jsstring * jsstring)
}.

(** [res.data.cards]: the property is absent ([undefined]), [null], or
    an array of records, the values that the declared type [Product[]]
    of the state admits next to the falsy ones. *)
Inductive CardsField : Type :=
| CardsMissing
| CardsNull
| CardsArray (cards : list Product).

(** [res.data] of a fulfilled call: a JSON object, the JSON value
    [null], or a primitive (axios hands over the text of a body that is
    not JSON, the empty body among them, as a string). *)
Inductive ResponseData : Type :=
| DataObject (cards : CardsField)
| DataNullish
| DataPrimitive (text : jsstring).

(** What can be thrown inside the [try] block. *)
Inductive Thrown : Type :=
| NetworkError
| StatusError (status : Z)      (* axios rejects a non-2xx status *)
| ParseError                    (* a body rejected as malformed *)
| TypeError.                    (* property access on null *)

(** How the promise of [axios.post] settles. *)
Inductive Settlement : Type :=
| Fulfilled (data : ResponseData)
| Rejected (err : Thrown).

(** What [fetchData] does to the outside and to the state, in program
    order. *)
Inductive Effect : Type :=
| SetLoading (b : bool)
| Post (req : Request)
| SetProducts (l : list Product)
| ConsoleError (err : Thrown).

(** The component instance together with the requests that have not
    settled yet and the log of effects. *)
Record World : Type := mkWorld {
  ui : State;
  pending : list Request;
  log : list Effect
}.

(** The three variants of the component differ in the URL, in the key of
    the field of the body, and in whether the text field has an
    [onKeyDown] handler. *)
Record Variant : Type := mkVariant {
  endpoint : jsstring;
  payloadKey : jsstring;
  hasKeyDown : bool
}.

(** The variant that reads [process.env.NEXT_PUBLIC_API_URL]. *)
Definition part_001 (NEXT_PUBLIC_API_URL : option jsstring) : Variant :=
  {| endpoint := interpolate NEXT_PUBLIC_API_URL ++ lit "/recommendation";
     payloadKey := lit "prompt";
     hasKeyDown := true |}.

(** The variant that sends [{ query }] to a fixed host. *)
Definition part_003 : Variant :=
  {| endpoint := lit "http://localhost:5001/recommendation";
     payloadKey := lit "query";
     hasKeyDown := false |}.

(** The variant that sends [{ prompt: query }] to a fixed host. *)
Definition part_004 : Variant :=
  {| endpoint := lit "http://localhost:5001/recommendation";
     payloadKey := lit "prompt";
     hasKeyDown := false |}.

(** *** State setters *)

Definition setQuery (q : jsstring) (w : World) : World :=
  {| ui := {| query := q; input := input (ui w);
              products := products (ui w); loading := loading (ui w) |};
     pending := pending w; log := log w |}.

Definition setInput (v : jsstring) (w : World) : World :=
  {| ui := {| query := query (ui w); input := v;
              products := products (ui w); loading := loading (ui w) |};
     pending := pending w; log := log w |}.

Definition setProducts (l : list Product) (w : World) : World :=
  {| ui := {| query := query (ui w); input := input (ui w);
              products := l; loading := loading (ui w) |};
     pending := pending w; log := log w ++ [SetProducts l] |}.

Definition setLoading (b : bool) (w : World) : World :=
  {| ui := {| query := query (ui w); input := input (ui w);
              products := products (ui w); loading := b |};
     pending := pending w; log := log w ++ [SetLoading b] |}.

Definition console_error (err : Thrown) (w : World) : World :=
  {| ui := ui w; pending := pending w; log := log w ++ [ConsoleError err] |}.

Definition axios_post (req : Request) (w : World) : World :=
  {| ui := ui w; pending := pending w ++ [req]; log := log w ++ [Post req] |}.

(** *** Predicates the claims are stated with *)

(** At most one of: the loading flag is set, the product list is
    non-empty. *)
Definition exclusive (st : State) : Prop :=
  ~ (loading st = true /\ products st <> []).

(** The request failed: the promise was rejected (network error, non-2xx
    status, a body rejected as malformed), or it was fulfilled with
    something that is not a JSON object (a body that did not parse or
    was empty and was handed over as text, or the body [null]). *)
Definition failed (s : Settlement) : bool :=
  match s with
  | Rejected _ => true
  | Fulfilled (DataObject _) => false
  | Fulfilled DataNullish => true
  | Fulfilled (DataPrimitive _) => true
  end.

(** A request as the contract describes it: a POST to [target] whose body
    has the single field [k], carrying a non-empty trimmed text. *)
Definition wellFormed (target k : jsstring) (r : Request) : Prop :=
  method r = POST
  /\ url r = target
  /\ exists q, body r = [(k, q)] /\ q <> [] /\ trim q = q.

(** In a log, every [Post] comes directly after a [SetLoading true]. *)
Definition postsFollowLoading (l : list Effect) : Prop :=
  forall before r after,
    l = before ++ Post r :: after ->
    exists before', before = before' ++ [SetLoading true].

(** *** The component *)

Section Variant.

Variable cfg : Variant.

(** [if (input.trim()) { setQuery(input.trim()); }] *)
Definition handleSend (w : World) : World :=
  if truthy (trim (input (ui w)))
  then setQuery (trim (input (ui w))) w
  else w.

(** The request built from the [query] of the render that runs the
    effect. *)
Definition requestOf (q : jsstring) : Request :=
  {| method := POST; url := endpoint cfg; body := [(payloadKey cfg, q)] |}.

(** [fetchData] up to its [await]: [setLoading(true)], then the call. *)
Definition fetchData (w : World) : World :=
  axios_post (requestOf (query (ui w))) (setLoading true w).

(** The body of the [try] block once the promise has settled: either the
    value handed to [setProducts], or what is thrown.
    [res.data.cards || []]. *)
Definition cardsOrEmpty (c : CardsField) : list Product :=
  match c with
  | CardsArray l => l
  | CardsNull | CardsMissing => []
  end.

Definition tryBlock (s : Settlement) : Thrown + list Product :=
  match s with
  | Rejected err => inl err
  | Fulfilled DataNullish => inl TypeError
  | Fulfilled (DataPrimitive _) => inr (cardsOrEmpty CardsMissing)
  | Fulfilled (DataObject c) => inr (cardsOrEmpty c)
  end.

(** [fetchData] after its [await]: [try], [catch], [finally].  The two
    setters run in one task and are committed together. *)
Definition fetchData_settled (s : Settlement) (w : World) : World :=
  let w' :=
    match tryBlock s with
    | inr l => setProducts l w
    | inl err => setProducts [] (console_error err w)
    end in
  setLoading false w'.

(** The callback given to [useEffect]: [if (!query) return; ...
    fetchData();] *)
Definition effect (w : World) : World :=
  if negb (truthy (query (ui w))) then w else fetchData w.

(** [useEffect(..., [query])] after an update: the callback runs when
    [query] is not the value of the previous render. *)
Definition commit (previous : State) (w : World) : World :=
  if same (query previous) (query (ui w)) then w else effect w.

(** [onKeyDown] of the text field. *)
Definition onKeyDown (k : jsstring) (w : World) : World :=
  if same k (lit "Enter") then handleSend w else w.

Fixpoint removeNth {A : Type} (n : nat) (l : list A) : list A :=
  match n, l with
  | _, [] => []
  | O, _ :: r => r
  | S n', x :: r => x :: removeNth n' r
  end.

Definition settle (n : nat) (w : World) : World :=
  {| ui := ui w; pending := removeNth n (pending w); log := log w |}.

(** What happens to the component: the user edits the text field, clicks
    the button, presses a key in the text field, or the [n]-th
    outstanding request settles. *)
Inductive Event : Type :=
| Change (value : jsstring)
| Click
| KeyDown (k : jsstring)
| Settle (n : nat) (s : Settlement).

Definition step (w : World) (e : Event) : World :=
  match e with
  | Change v => setInput v w
  | Click => commit (ui w) (handleSend w)
  | KeyDown k =>
      if hasKeyDown cfg then commit (ui w) (onKeyDown k w) else w
  | Settle n s =>
      match nth_error (pending w) n with
      | Some _ => fetchData_settled s (settle n w)
      | None => w
      end
  end.

(** The component after its first render: the effect has run once, with
    the initial [query]. *)
Definition initial : World :=
  {| ui := {| query := []; input := []; products := []; loading := false |};
     pending := []; log := [] |}.

Definition mounted : World := effect initial.

Definition run (events : list Event) : World :=
  fold_left step events mounted.

(** The effects of dispatches only: [setLoading(true)] and POSTs. *)
Definition dispatchOnly (l : list Effect) : Prop :=
  Forall (fun x => x = SetLoading true \/ exists r, x = Post r) l.

(** The run has dispatched a request while the product list was not
    empty, and no request has settled since: [prefix] is the run up to
    that dispatch, [e] the event that caused it, and the effects logged
    after it are those of further dispatches only. *)
Definition dispatchedOverResults (events : list Event) : Prop :=
  exists prefix e rest r later,
    events = prefix ++ e :: rest
    /\ products (ui (run prefix)) <> []
    /\ log (step (run prefix) e)
       = log (run prefix) ++ [SetLoading true; Post r]
    /\ products (ui (run events)) = products (ui (run prefix))
    /\ log (run events) = log (step (run prefix) e) ++ later
    /\ dispatchOnly later.

(** Submitting a text: the field is edited to [S], then the button is
    clicked. *)
Definition submit (S : jsstring) (w : World) : World :=
  step (step w (Change S)) Click.

(** The requests posted so far. *)
Fixpoint posted (l : list Effect) : list Request :=
  match l with
  | [] => []
  | Post r :: l' => r :: posted l'
  | _ :: l' => posted l'
  end.

Fixpoint errorsLogged (l : list Effect) : list Thrown :=
  match l with
  | [] => []
  | ConsoleError e :: l' => e :: errorsLogged l'
  | _ :: l' => errorsLogged l'
  end.

(** *** Rendering of the grid *)

(** [n.toLocaleString('tr-TR')] and [Number(n).toLocaleString()]. *)
Variable toLocaleString_trTR : number -> jsstring.
Variable toLocaleString : number -> jsstring.

(** The props handed to [ProductCard] for one record.
    [product.image ?? '/placeholder.png'] *)
Definition propsOf (product : Product) : Card.ProductCardProps :=
  {| Card.imageUrl :=
       match image product with
       | Some src => src
       | None => lit "/placeholder.png"
       end;
     Card.title := title product;
     Card.price := toLocaleString_trTR (price product) ++ lit " TL";
     Card.rating := rating product;
     Card.rating_count := rating_count product;
     Card.description := description product;
     Card.link := link product |}.

(** What the component shows below the text field. *)
Record View : Type := mkView {
  spinner : bool;
  grid : list Card.CardView
}.

(** [{loading && ...}] and [{products.length > 0 && ... products.map(...)}] *)
Definition ProductRecommender (w : World) : View :=
  {| spinner := loading (ui w);
     grid :=
       if (0 <? Z.of_nat (List.length (products (ui w))))%Z
       then map (fun product => Card.ProductCard toLocaleString (propsOf product))
                (products (ui w))
       else [] |}.

End Variant.

End Recommender.

(** ** Concrete data used by the examples *)

Module Samples.
Import Recommender.

(** The record of the end-to-end scenario: title "X", price 299.99,
    rating 4.5, 120 ratings, no image. *)
Definition productX : Product :=
  {| title := lit "X";
     price := Finite (29999 # 100);
     rating := Finite (9 # 2);
     rating_count := ofZ 120;
     description := lit "...";
     image := None;
     link := lit "https://example.com/x" |}.

Definition productY : Product :=
  {| title := lit "Y";
     price := ofZ 1500;
     rating := Finite (7 # 2);
     rating_count := ofZ 8;
     description := [];
     image := Some (lit "https://example.com/y.png");
     link := lit "https://example.com/y" |}.

(** "kablosuz kulaklık" *)
Definition wish : jsstring := lit "kablosuz kulakl" ++ [305%N; 107%N].

Definition base : jsstring := lit "https://api.example.com".

Definition live : Variant := part_001 (Some base).

(** A populated view on which a second query has just been submitted. *)
Definition resubmitted : list Event :=
  [Change wish; Click;
   Settle 0 (Fulfilled (DataObject (CardsArray [productX])));
   Change (lit "mouse"); Click].

(** A populated view with one request outstanding. *)
Definition populatedAndWaiting : World :=
  run live resubmitted.

(** Two queries submitted one after the other, and the request of the
    first one answered with one record. *)
Definition overlapping : list Event :=
  [Change wish; Click; Change (lit "mouse"); Click;
   Settle 0 (Fulfilled (DataObject (CardsArray [productX])))].

(** The wish has been typed but not submitted yet. *)
Definition typed : World := run live [Change wish].

(** The wish has been submitted, and the field then edited to the same
    text with a blank on either side. *)
Definition retyped : World :=
  run live [Change wish; Click; Change (32%N :: wish ++ [32%N])].

(** Stand-ins for the two locale formatters in closed examples. *)
Definition plainDigits (n : number) : jsstring := lit "#".

End Samples.

(** ** The cards with whole stars

    The card of the static listing (the first component of
    ProductCard.tsx) and the earlier card of the recommender colour each of
    five stars as a whole: [Array.from({ length: 5 }).map((_, i) => ...)]
    with [color={i < rating ? on : "#e5e7eb"}]. *)

Module WholeStars.

(** [a < b] on numbers: false as soon as one side is NaN. *)
Definition lessThan (a b : number) : bool :=
  match a, b with
  | NaN, _ | _, NaN => false
  | Finite x, Finite y => negb (Qle_bool y x)
  | NegInfinity, NegInfinity => false
  | NegInfinity, _ => true
  | Infinity, _ => false
  | Finite _, Infinity => true
  | Finite _, NegInfinity => false
  end.

Record WholeStar : Type := mkWholeStar {
  key : Z;
  size : Z;
  color : jsstring
}.

Definition grey : jsstring := lit "#e5e7eb".

(** The five stars, the index running from 0 to 4. *)
Definition starsWith (on : jsstring) (rating : number) : list WholeStar :=
  map (fun i : nat =>
         mkWholeStar (Z.of_nat i) 14
           (if lessThan (ofZ (Z.of_nat i)) rating then on else grey))
      (seq 0 5).

(** The star row of the card of the static listing. *)
Definition starsOfListingCard (rating : number) : list WholeStar :=
  starsWith (lit "#facc15") rating.

(** The star row of the earlier card of the recommender. *)
Definition starsOfEarlierCard (rating : number) : list WholeStar :=
  starsWith (lit "var(--primary-color)") rating.

(** The star is drawn in a colour other than the grey of an empty star. *)
Definition coloured (s : WholeStar) : bool := negb (same (color s) grey).

Definition countColoured (stars : list WholeStar) : nat :=
  List.length (filter coloured stars).

End WholeStars.

(** ** Measures on star rows and on logs *)

Module Measures.
Import Recommender.

(** The value of a finite number (0 for the others). *)
Definition valueOf (n : number) : Q :=
  match n with Finite q => q | _ => 0 end.

(** The fill percentages of a star row, added up. *)
Definition totalFill (stars : list Card.Star) : Q :=
  fold_right (fun s acc => valueOf (Card.filledPercentage s) + acc) 0 stars.

(** The fill of the star at position [i] (from 0) of a row. *)
Definition fillAt (stars : list Card.Star) (i : nat) : Q :=
  valueOf (Card.filledPercentage (nth i stars (Card.mkStar 0 0 NaN))).

(** How many times [setLoading(false)] was called. *)
Fixpoint settledCount (l : list Effect) : nat :=
  match l with
  | [] => O
  | SetLoading false :: l' => S (settledCount l')
  | _ :: l' => settledCount l'
  end.

(** The event comes from the user (it is not the settling of a
    request). *)
Definition fromUser (e : Event) : bool :=
  match e with Settle _ _ => false | _ => true end.

(** The event is a key press. *)
Definition isKeyDown (e : Event) : bool :=
  match e with KeyDown _ => true | _ => false end.

(** The component with the wish answered by one record, and two further
    queries submitted before either is answered. *)
Definition twoOutstanding : World :=
  run Samples.live
      (Samples.resubmitted ++ [Change (lit "keyboard"); Click]).

End Measures.

(** ** Facts about strings *)

Section StringFacts.

Lemma trimStart_whitespaceOnly (s : jsstring) :
  whitespaceOnly s -> trimStart s = [].
Proof.
  unfold whitespaceOnly.
  induction s as [|c r IH]; simpl; [reflexivity|].
  intros H. apply andb_true_iff in H as [Hc Hr].
  rewrite Hc. now apply IH.
Qed.

Lemma trim_whitespaceOnly (s : jsstring) :
  whitespaceOnly s -> trim s = [].
Proof.
  intros H. unfold trim. now rewrite (trimStart_whitespaceOnly s H).
Qed.

Lemma trimStart_head (s : jsstring) (c : N) (r : jsstring) :
  trimStart s = c :: r -> isWhiteSpace c = false.
Proof.
  induction s as [|a s' IH]; simpl; [discriminate|].
  destruct (isWhiteSpace a) eqn:Ha; [exact IH|].
  intros E. injection E as -> _. exact Ha.
Qed.

Lemma trimStart_keeps (c : N) (r : jsstring) :
  isWhiteSpace c = false -> trimStart (c :: r) = c :: r.
Proof. intros H. simpl. now rewrite H. Qed.

Lemma trimStart_snoc (l : jsstring) (c : N) :
  isWhiteSpace c = false -> trimStart (l ++ [c]) = trimStart l ++ [c].
Proof.
  intros Hc. induction l as [|a l' IH]; simpl.
  - now rewrite Hc.
  - destruct (isWhiteSpace a); [exact IH | reflexivity].
Qed.

Lemma trimStart_idempotent (s : jsstring) :
  trimStart (trimStart s) = trimStart s.
Proof.
  induction s as [|a s' IH]; simpl; [reflexivity|].
  destruct (isWhiteSpace a) eqn:Ha; [exact IH|].
  simpl. now rewrite Ha.
Qed.

Lemma trimEnd_idempotent (s : jsstring) :
  trimEnd (trimEnd s) = trimEnd s.
Proof.
  unfold trimEnd. now rewrite rev_involutive, trimStart_idempotent.
Qed.

Lemma trimEnd_cons (c : N) (r : jsstring) :
  isWhiteSpace c = false -> trimEnd (c :: r) = c :: trimEnd r.
Proof.
  intros Hc. unfold trimEnd. simpl rev at 2.
  rewrite (trimStart_snoc (rev r) c Hc), rev_app_distr. reflexivity.
Qed.

Lemma trim_idempotent (s : jsstring) : trim (trim s) = trim s.
Proof.
  assert (T : trim s = trimEnd (trimStart s)) by reflexivity.
  rewrite T. destruct (trimStart s) as [|c r] eqn:E.
  - reflexivity.
  - pose proof (trimStart_head s c r E) as Hc.
    rewrite (trimEnd_cons c r Hc). unfold trim.
    rewrite (trimStart_keeps c (trimEnd r) Hc), (trimEnd_cons c _ Hc).
    now rewrite trimEnd_idempotent.
Qed.

Lemma same_eq (a b : jsstring) : same a b = true <-> a = b.
Proof.
  revert b. induction a as [|x a IH]; intros [|y b]; simpl;
    try (split; [discriminate | discriminate]); [tauto|].
  rewrite andb_true_iff, N.eqb_eq, IH. split.
  - intros [-> ->]. reflexivity.
  - intros E. injection E as -> ->. split; reflexivity.
Qed.

Lemma same_refl (a : jsstring) : same a a = true.
Proof. now apply same_eq. Qed.

Lemma truthy_false (s : jsstring) : truthy s = false <-> s = [].
Proof. destruct s; simpl; split; congruence. Qed.

Lemma truthy_true (s : jsstring) : truthy s = true <-> s <> [].
Proof. destruct s; simpl; split; congruence. Qed.

End StringFacts.

(** ** Facts about rounding *)

Section RneFacts.

Lemma floor_bounds (t : Q) :
  inject_Z (Qfloor t) <= t /\ t < inject_Z (Qfloor t) + 1.
Proof.
  split; [apply Qfloor_le|].
  pose proof (Qlt_floor t) as H. rewrite inject_Z_plus in H. exact H.
Qed.

Lemma rne_cases (t : Q) :
  (rne t = Qfloor t /\ t - inject_Z (Qfloor t) <= 1 # 2)
  \/ (rne t = (Qfloor t + 1)%Z /\ 1 # 2 <= t - inject_Z (Qfloor t)).
Proof.
  unfold rne. destruct (Qcompare_spec (t - inject_Z (Qfloor t)) (1 # 2)) as [E|L|G].
  - destruct (Z.even (Qfloor t)); [left | right]; split; try reflexivity;
      rewrite E; apply Qle_refl.
  - left. split; [reflexivity | apply Qlt_le_weak, L].
  - right. split; [reflexivity | apply Qlt_le_weak, G].
Qed.

Lemma rne_error (t : Q) :
  t - (1 # 2) <= inject_Z (rne t) /\ inject_Z (rne t) <= t + (1 # 2).
Proof.
  destruct (floor_bounds t) as [Lo Hi].
  destruct (rne_cases t) as [[-> H] | [-> H]].
  - split; lra.
  - rewrite inject_Z_plus. change (inject_Z 1) with 1. split; lra.
Qed.

Lemma rne_comp (t t' : Q) : t == t' -> rne t = rne t'.
Proof.
  intros E. unfold rne. rewrite (Qfloor_comp t t' E).
  assert (C : (t - inject_Z (Qfloor t') ?= 1 # 2)
              = (t' - inject_Z (Qfloor t') ?= 1 # 2)).
  { apply Qcompare_comp; [rewrite E; reflexivity | reflexivity]. }
  rewrite C. reflexivity.
Qed.

Lemma rne_Z (z : Z) : rne (inject_Z z) = z.
Proof.
  unfold rne. rewrite Qfloor_Z.
  assert (C : (inject_Z z - inject_Z z ?= 1 # 2) = Lt).
  { apply -> Qlt_alt. unfold Qminus. rewrite Qplus_opp_r. reflexivity. }
  rewrite C. reflexivity.
Qed.

Lemma rne_monotone (t t' : Q) : t <= t' -> (rne t <= rne t')%Z.
Proof.
  intros H.
  pose proof (Qfloor_resp_le t t' H) as F.
  destruct (floor_bounds t) as [Lo Hi]. destruct (floor_bounds t') as [Lo' Hi'].
  destruct (Z.eq_dec (Qfloor t) (Qfloor t')) as [E|N].
  - unfold rne. rewrite <- E.
    destruct (Qcompare_spec (t - inject_Z (Qfloor t)) (1 # 2)) as [A|A|A];
      destruct (Qcompare_spec (t' - inject_Z (Qfloor t)) (1 # 2)) as [B|B|B];
      try lia; try (destruct (Z.even (Qfloor t)); lia); lra.
  - destruct (rne_cases t) as [[-> _] | [-> _]];
      destruct (rne_cases t') as [[-> _] | [-> _]]; lia.
Qed.

End RneFacts.

Section ExponentFacts.

Lemma two_neq_0 : ~ 2 == 0.
Proof. discriminate. Qed.

Lemma pow2_pos (e : Z) : 0 < 2 ^ e.
Proof. apply Qpower_0_lt. reflexivity. Qed.

Lemma pow2_add (a b : Z) : 2 ^ (a + b) == 2 ^ a * 2 ^ b.
Proof. apply Qpower_plus, two_neq_0. Qed.

Lemma pow2_le (a b : Z) : (a <= b)%Z -> 2 ^ a <= 2 ^ b.
Proof. intros H. apply Qpower_le_compat_l; [exact H | discriminate]. Qed.

Lemma pow2_lt_inv (a b : Z) : 2 ^ a < 2 ^ b -> (a < b)%Z.
Proof. intros H. apply (Qpower_lt_compat_l_inv 2); [exact H | reflexivity]. Qed.

Lemma pow2_Z (n : Z) : (0 <= n)%Z -> inject_Z (2 ^ n) == 2 ^ n.
Proof. intros H. now rewrite Zpower_Qpower. Qed.

Lemma num_over_den (x : Q) :
  x * inject_Z (Zpos (Qden x)) == inject_Z (Qnum x).
Proof.
  destruct x as [n d]. unfold Qeq, inject_Z. simpl.
  rewrite Pos.mul_1_r, Z.mul_1_r. reflexivity.
Qed.

Lemma log2_window (x : Q) :
  0 < x ->
  2 ^ (Z.log2 (Qnum x) - Z.log2 (Zpos (Qden x)) - 1) <= x
  /\ x < 2 ^ (Z.log2 (Qnum x) - Z.log2 (Zpos (Qden x)) + 1).
Proof.
  intros Hx.
  assert (Hn : (0 < Qnum x)%Z).
  { destruct x as [n d]. unfold Qlt in Hx. simpl in *. lia. }
  destruct (Z.log2_spec (Qnum x) Hn) as [Nlo Nhi].
  destruct (Z.log2_spec (Zpos (Qden x)) (Pos2Z.is_pos _)) as [Dlo Dhi].
  pose proof (Z.log2_nonneg (Qnum x)) as Ln.
  pose proof (Z.log2_nonneg (Zpos (Qden x))) as Ld.
  set (ln := Z.log2 (Qnum x)) in *. set (ld := Z.log2 (Zpos (Qden x))) in *.
  pose proof (num_over_den x) as E.
  set (N := inject_Z (Qnum x)) in *. set (D := inject_Z (Zpos (Qden x))) in *.
  assert (Dpos : 0 < D) by (unfold D, Qlt; simpl; lia).
  assert (QNlo : 2 ^ ln <= N).
  { rewrite <- pow2_Z by lia. unfold N. now rewrite <- Zle_Qle. }
  assert (QNhi : N < 2 ^ (ln + 1)).
  { rewrite <- pow2_Z by lia. unfold N. now rewrite <- Zlt_Qlt. }
  assert (QDlo : 2 ^ ld <= D).
  { rewrite <- pow2_Z by lia. unfold D. now rewrite <- Zle_Qle. }
  assert (QDhi : D < 2 ^ (ld + 1)).
  { rewrite <- pow2_Z by lia. unfold D. now rewrite <- Zlt_Qlt. }
  split.
  - assert (S : 2 ^ ln == 2 ^ (ln - ld - 1) * 2 ^ (ld + 1)).
    { rewrite <- pow2_add. now replace (ln - ld - 1 + (ld + 1))%Z with ln by lia. }
    pose proof (pow2_pos (ln - ld - 1)) as Ppos.
    set (P := 2 ^ (ln - ld - 1)) in *. set (M := 2 ^ (ld + 1)) in *.
    set (A := 2 ^ ln) in *.
    nra.
  - assert (S : 2 ^ (ln + 1) == 2 ^ (ln - ld + 1) * 2 ^ ld).
    { rewrite <- pow2_add. now replace (ln - ld + 1 + ld)%Z with (ln + 1)%Z by lia. }
    pose proof (pow2_pos (ln - ld + 1)) as Ppos.
    set (P := 2 ^ (ln - ld + 1)) in *. set (M := 2 ^ ld) in *.
    set (A := 2 ^ (ln + 1)) in *.
    nra.
Qed.

Lemma exponentOf_spec (x : Q) :
  0 < x ->
  2 ^ (exponentOf x + 52) <= x /\ x < 2 ^ (exponentOf x + 53).
Proof.
  intros Hx. destruct (log2_window x Hx) as [Lo Hi].
  unfold exponentOf.
  set (e0 := (Z.log2 (Qnum x) - Z.log2 (Zpos (Qden x)) - 53)%Z) in *.
  replace (Z.log2 (Qnum x) - Z.log2 (Zpos (Qden x)) - 1)%Z
    with (e0 + 52)%Z in Lo by (unfold e0; lia).
  replace (Z.log2 (Qnum x) - Z.log2 (Zpos (Qden x)) + 1)%Z
    with (e0 + 54)%Z in Hi by (unfold e0; lia).
  destruct (Qle_bool (2 ^ (e0 + 53)) x) eqn:T.
  - apply Qle_bool_iff in T.
    replace (e0 + 1 + 52)%Z with (e0 + 53)%Z by lia.
    replace (e0 + 1 + 53)%Z with (e0 + 54)%Z by lia. now split.
  - split; [exact Lo|].
    apply Qnot_le_lt. intros C. apply Qle_bool_iff in C. congruence.
Qed.

Lemma exponentOf_monotone (x y : Q) :
  0 < x -> x <= y -> (exponentOf x <= exponentOf y)%Z.
Proof.
  intros Hx Hxy.
  destruct (exponentOf_spec x Hx) as [Lo _].
  destruct (exponentOf_spec y) as [_ Hi]; [lra|].
  assert (L : 2 ^ (exponentOf x + 52) < 2 ^ (exponentOf y + 53)) by lra.
  apply pow2_lt_inv in L. lia.
Qed.

Lemma scaled_window (x : Q) :
  0 < x ->
  2 ^ 52 <= x / 2 ^ exponentOf x /\ x / 2 ^ exponentOf x < 2 ^ 53.
Proof.
  intros Hx. destruct (exponentOf_spec x Hx) as [Lo Hi].
  rewrite Z.add_comm, pow2_add in Lo. rewrite Z.add_comm, pow2_add in Hi.
  pose proof (pow2_pos (exponentOf x)) as P.
  set (p := 2 ^ exponentOf x) in *.
  assert (E : x / p * p == x) by (field; lra).
  set (s := x / p) in *. set (a := 2 ^ 52) in *. set (b := 2 ^ 53) in *.
  split; nra.
Qed.

Lemma mantissa_window (x : Q) :
  0 < x ->
  (2 ^ 52 <= rne (x / 2 ^ exponentOf x) <= 2 ^ 53)%Z.
Proof.
  intros Hx. destruct (scaled_window x Hx) as [Lo Hi].
  split.
  - rewrite <- (rne_Z (2 ^ 52)). apply rne_monotone.
    rewrite pow2_Z by lia. exact Lo.
  - rewrite <- (rne_Z (2 ^ 53)). apply rne_monotone.
    rewrite pow2_Z by lia. apply Qlt_le_weak, Hi.
Qed.

End ExponentFacts.

Section RoundFacts.

Lemma roundPositive_window (x : Q) :
  0 < x ->
  2 ^ (exponentOf x + 52) <= roundPositive x
  /\ roundPositive x <= 2 ^ (exponentOf x + 53).
Proof.
  intros Hx. destruct (mantissa_window x Hx) as [Lo Hi]. unfold roundPositive.
  rewrite Zle_Qle in Lo, Hi. rewrite pow2_Z in Lo, Hi by lia.
  rewrite (Z.add_comm _ 52), (Z.add_comm _ 53), !pow2_add.
  pose proof (pow2_pos (exponentOf x)) as P.
  set (p := 2 ^ exponentOf x) in *.
  set (m := inject_Z (rne (x / p))) in *.
  set (a := 2 ^ 52) in *. set (b := 2 ^ 53) in *.
  split; nra.
Qed.

Lemma roundPositive_pos (x : Q) : 0 < x -> 0 < roundPositive x.
Proof.
  intros Hx. destruct (roundPositive_window x Hx) as [Lo _].
  pose proof (pow2_pos (exponentOf x + 52)). lra.
Qed.

Lemma roundPositive_monotone (x y : Q) :
  0 < x -> x <= y -> roundPositive x <= roundPositive y.
Proof.
  intros Hx Hxy. assert (Hy : 0 < y) by lra.
  pose proof (exponentOf_monotone x y Hx Hxy) as E.
  destruct (Z.eq_dec (exponentOf x) (exponentOf y)) as [Eq|Ne].
  - unfold roundPositive. rewrite <- Eq.
    pose proof (pow2_pos (exponentOf x)) as P.
    assert (S : x / 2 ^ exponentOf x <= y / 2 ^ exponentOf x).
    { apply Qmult_le_compat_r; [exact Hxy|]. apply Qlt_le_weak, Qinv_lt_0_compat, P. }
    apply rne_monotone in S. rewrite Zle_Qle in S.
    set (p := 2 ^ exponentOf x) in *.
    set (m := inject_Z (rne (x / p))) in *. set (m' := inject_Z (rne (y / p))) in *.
    nra.
  - destruct (roundPositive_window x Hx) as [_ Hi].
    destruct (roundPositive_window y Hy) as [Lo _].
    assert (L : 2 ^ (exponentOf x + 53) <= 2 ^ (exponentOf y + 52))
      by (apply pow2_le; lia).
    lra.
Qed.

Lemma roundPositive_error (x : Q) :
  0 < x ->
  x - 2 ^ exponentOf x * (1 # 2) <= roundPositive x
  /\ roundPositive x <= x + 2 ^ exponentOf x * (1 # 2).
Proof.
  intros Hx. unfold roundPositive.
  pose proof (pow2_pos (exponentOf x)) as P.
  destruct (rne_error (x / 2 ^ exponentOf x)) as [Lo Hi].
  set (p := 2 ^ exponentOf x) in *.
  assert (E : x / p * p == x) by (field; lra).
  set (s := x / p) in *. set (m := inject_Z (rne s)) in *.
  split; nra.
Qed.

Lemma round53_comp (x y : Q) : x == y -> round53 x = round53 y.
Proof. intros E. unfold round53. now rewrite (Qred_complete x y E). Qed.

Lemma round53_of_zero (x : Q) : x == 0 -> round53 x = 0.
Proof. intros E. now rewrite (round53_comp x 0 E). Qed.

Lemma round53_of_positive (x : Q) :
  0 < x -> round53 x == roundPositive (Qred x).
Proof.
  intros Hx. unfold round53.
  assert (C : (0 ?= Qred x) = Lt) by (apply -> Qlt_alt; now rewrite Qred_correct).
  rewrite C. apply Qred_correct.
Qed.

Lemma round53_of_negative (x : Q) :
  x < 0 -> round53 x == - roundPositive (- Qred x).
Proof.
  intros Hx. unfold round53.
  assert (C : (0 ?= Qred x) = Gt) by (apply -> Qgt_alt; now rewrite Qred_correct).
  rewrite C. apply Qred_correct.
Qed.

Lemma round53_sign (x : Q) :
  (0 < x -> 0 < round53 x) /\ (x < 0 -> round53 x < 0).
Proof.
  split; intros H.
  - rewrite (round53_of_positive x H). apply roundPositive_pos.
    now rewrite Qred_correct.
  - rewrite (round53_of_negative x H).
    assert (P : 0 < - Qred x) by (rewrite Qred_correct; lra).
    pose proof (roundPositive_pos _ P). lra.
Qed.

Lemma round53_monotone (x y : Q) : x <= y -> round53 x <= round53 y.
Proof.
  intros H. destruct (round53_sign x) as [Px Nx]. destruct (round53_sign y) as [Py Ny].
  destruct (Q_dec 0 x) as [[Hx|Hx]|Hx].
  - assert (Hy : 0 < y) by lra.
    rewrite (round53_of_positive x Hx), (round53_of_positive y Hy).
    apply roundPositive_monotone; rewrite !Qred_correct; assumption.
  - destruct (Q_dec 0 y) as [[Hy|Hy]|Hy].
    + specialize (Nx Hx). specialize (Py Hy). lra.
    + rewrite (round53_of_negative x Hx), (round53_of_negative y Hy).
      assert (M : roundPositive (- Qred y) <= roundPositive (- Qred x)).
      { apply roundPositive_monotone; rewrite !Qred_correct; lra. }
      lra.
    + specialize (Nx Hx). rewrite (round53_of_zero y) by (symmetry; exact Hy). lra.
  - rewrite (round53_of_zero x) by (symmetry; exact Hx).
    destruct (Q_dec 0 y) as [[Hy|Hy]|Hy].
    + specialize (Py Hy). lra.
    + lra.
    + rewrite (round53_of_zero y) by (symmetry; exact Hy). lra.
Qed.

(** Below 128 the rounded value is within 2^-47 of the exact one. *)
Lemma round53_error_below_128 (x : Q) :
  0 <= x -> x < 128 ->
  x - 2 ^ (-47) <= round53 x /\ round53 x <= x + 2 ^ (-47).
Proof.
  intros H0 H128. destruct (Q_dec 0 x) as [[Hx|Hx]|Hx]; [|lra|].
  - rewrite (round53_of_positive x Hx).
    assert (Hr : 0 < Qred x) by now rewrite Qred_correct.
    destruct (roundPositive_error _ Hr) as [Lo Hi].
    destruct (exponentOf_spec _ Hr) as [W _].
    pose proof (Qred_correct x) as R.
    set (y := Qred x) in *.
    assert (L : 2 ^ (exponentOf y + 52) < 2 ^ 7).
    { change (2 ^ 7) with 128. lra. }
    apply pow2_lt_inv in L.
    assert (B : 2 ^ exponentOf y <= 2 ^ (-46)) by (apply pow2_le; lia).
    assert (T : 2 ^ (-46) * (1 # 2) == 2 ^ (-47)) by reflexivity.
    set (p := 2 ^ exponentOf y) in *.
    set (r := roundPositive y) in *.
    set (u := 2 ^ (-46)) in *. set (v := 2 ^ (-47)) in *.
    split; lra.
  - rewrite (round53_of_zero x) by (symmetry; exact Hx).
    pose proof (pow2_pos (-47)). lra.
Qed.

End RoundFacts.

Lemma round53_100 : round53 100 = 100%Q.
Proof. vm_compute. reflexivity. Qed.

Lemma round53_percent (c : Q) :
  (0 <= c)%Q -> (c <= 1)%Q ->
  (0 <= round53 (c * 100) /\ round53 (c * 100) <= 100)%Q.
Proof.
  intros H0 H1. split.
  - rewrite <- (round53_of_zero 0) by reflexivity.
    apply round53_monotone. lra.
  - rewrite <- round53_100 at 2. apply round53_monotone. lra.
Qed.

(** ** The star row *)

Section Stars.
Import Card.

Lemma renderStars_unfold (rating : number) :
  renderStars rating =
  map (fun i => mkStar i 16 (fillOf rating i)) [1; 2; 3; 4; 5]%Z.
Proof. reflexivity. Qed.

Lemma renderStars14_unfold (rating : number) :
  renderStars14 rating =
  map (fun i => mkStar i 14 (fillOf rating i)) [1; 2; 3; 4; 5]%Z.
Proof. reflexivity. Qed.

Lemma clampUnit_bounds (x : Q) : (0 <= clampUnit x /\ clampUnit x <= 1)%Q.
Proof.
  unfold clampUnit.
  destruct (Qle_bool x 0) eqn:E0; [split; lra|].
  destruct (Qle_bool 1 x) eqn:E1; [split; lra|].
  assert (~ (x <= 0)%Q) by (rewrite <- Qle_bool_iff; congruence).
  assert (~ (1 <= x)%Q) by (rewrite <- Qle_bool_iff; congruence).
  split; lra.
Qed.

(** On a finite rating the fraction of the source is the clamp of the
    specification. *)
Lemma fractionOf_finite (q : Q) (i : Z) :
  exists x : Q,
    fractionOf (Finite q) i = Finite x
    /\ (x == specFillFraction q i)%Q.
Proof.
  unfold fractionOf, specFillFraction, clampUnit, ofZ. simpl sub.
  set (d := (q - inject_Z (i - 1))%Q).
  unfold Math_max.
  change (inject_Z 0) with 0%Q. change (inject_Z 1) with 1%Q.
  destruct (Qle_bool d 0) eqn:E0.
  - exists 0%Q. split; [reflexivity | reflexivity].
  - assert (H0 : ~ (d <= 0)%Q) by (rewrite <- Qle_bool_iff; congruence).
    unfold Math_min. destruct (Qle_bool d 1) eqn:E1.
    + exists d. split; [reflexivity|].
      apply Qle_bool_iff in E1.
      destruct (Qle_bool 1 d) eqn:E2; [|reflexivity].
      apply Qle_bool_iff in E2. lra.
    + exists 1%Q. split; [reflexivity|].
      assert (H1 : ~ (d <= 1)%Q) by (rewrite <- Qle_bool_iff; congruence).
      destruct (Qle_bool 1 d) eqn:E2; [reflexivity|].
      assert (~ (1 <= d)%Q) by (rewrite <- Qle_bool_iff; congruence). lra.
Qed.

(** On a finite rating the percentage is the rounded product of the clamp
    of the specification and 100. *)
Lemma fillOf_finite (q : Q) (i : Z) :
  fillOf (Finite q) i = Finite (round53 (specFillFraction q i * 100)).
Proof.
  unfold fillOf. destruct (fractionOf_finite q i) as [x [-> Hx]].
  unfold ofZ. cbn [mul]. f_equal. apply round53_comp.
  change (inject_Z 100) with 100%Q. now rewrite Hx.
Qed.

Lemma fillOf_finite_between (q : Q) (i : Z) :
  between 0 100 (fillOf (Finite q) i).
Proof.
  rewrite fillOf_finite. cbn [between].
  pose proof (clampUnit_bounds (q - inject_Z (i - 1))) as [Hlo Hhi].
  fold (specFillFraction q i) in Hlo, Hhi.
  now apply round53_percent.
Qed.

Lemma fillOf_between (rating : number) (i : Z) :
  rating <> NaN -> between 0 100 (fillOf rating i).
Proof.
  destruct rating as [| |q|]; intros H.
  - congruence.
  - vm_compute. split; discriminate.
  - apply fillOf_finite_between.
  - vm_compute. split; discriminate.
Qed.

Lemma fillOf_NaN (i : Z) : fillOf NaN i = NaN.
Proof. reflexivity. Qed.

End Stars.

Section Binary64Check.
Import PrimFloat.

(** On binary64 the three named ratings give the same fills as in the
    number model, an out-of-range or infinite rating is clamped, and NaN
    gives NaN. *)
Example renderStars_on_binary64 :
  map snd (Binary64.renderStars 3.5%float)
  = [100; 100; 100; 50; 0]%float
  /\ map snd (Binary64.renderStars 5%float)
     = [100; 100; 100; 100; 100]%float
  /\ map snd (Binary64.renderStars 0%float) = [0; 0; 0; 0; 0]%float
  /\ map snd (Binary64.renderStars 7.25%float)
     = [100; 100; 100; 100; 100]%float
  /\ map snd (Binary64.renderStars (-2)%float) = [0; 0; 0; 0; 0]%float
  /\ map snd (Binary64.renderStars PrimFloat.infinity)
     = [100; 100; 100; 100; 100]%float
  /\ map snd (Binary64.renderStars PrimFloat.nan)
     = [PrimFloat.nan; PrimFloat.nan; PrimFloat.nan; PrimFloat.nan;
        PrimFloat.nan]
  /\ map fst (Binary64.renderStars 3.5%float) = [1; 2; 3; 4; 5]%float.
Proof. repeat split; vm_compute; reflexivity. Qed.

(** On each of the sample ratings the number model writes exactly the
    percentages that the loop on binary64 floats writes; on 4.7 the fifth
    star gets 4925812092436481 / 2^46, the float 70.00000000000001. *)
Example model_agrees_with_binary64 :
  forallb Binary64.agreesAt Binary64.sampleRatings = true
  /\ Binary64.toQ (snd (nth 4 (Binary64.renderStars (hd 0%float
                                   Binary64.sampleRatings))
                           (0%float, 0%float)))
     = Some (4925812092436481 # 70368744177664).
Proof. split; vm_compute; reflexivity. Qed.

End Binary64Check.

Section StarClaims.
Import Card.

(** The star row of a card is [renderStars] of the rating of the record it
    was built from. *)
Lemma starRow_of_record
      (tr loc : number -> jsstring) (product : Recommender.Product) :
  starRow (ProductCard loc (Recommender.propsOf tr product))
  = renderStars (Recommender.rating product).
Proof. reflexivity. Qed.

(** C6. For every finite rating the star row has 5 stars, and the fill
    fraction of star i (i = 1..5) is [rating - (i-1)] clamped to [0,1];
    the percentage written into the star is the product of that fraction
    and 100, as the source computes it.  Rating 3.5 gives exactly three
    stars filled to 100%, one filled to 50% and one filled to 0%; rating 5
    gives five stars at 100%; rating 0 gives five stars at 0%. *)
Theorem C6_star_fill_is_clamped_fraction :
  (forall q : Q,
      List.length (renderStars (Finite q)) = 5%nat
      /\ map key (renderStars (Finite q)) = [1; 2; 3; 4; 5]%Z
      /\ Forall2 numEq
           (map (fractionOf (Finite q)) [1; 2; 3; 4; 5]%Z)
           (map (fun i => Finite (specFillFraction q i)) [1; 2; 3; 4; 5]%Z)
      /\ fills (renderStars (Finite q))
         = map (fun i => mul (fractionOf (Finite q) i) (ofZ 100))
               [1; 2; 3; 4; 5]%Z
      /\ Forall2 numEq
           (fills (renderStars (Finite q)))
           (map (fun i => mul (Finite (specFillFraction q i)) (ofZ 100))
                [1; 2; 3; 4; 5]%Z))
  /\ (Forall2 numEq (fills (renderStars (Finite (7 # 2))))
                    [ofZ 100; ofZ 100; ofZ 100; ofZ 50; ofZ 0]
      /\ countFill 100 (renderStars (Finite (7 # 2))) = 3%nat
      /\ countFill 50 (renderStars (Finite (7 # 2))) = 1%nat
      /\ countFill 0 (renderStars (Finite (7 # 2))) = 1%nat)
  /\ countFill 100 (renderStars (ofZ 5)) = 5%nat
  /\ countFill 0 (renderStars (ofZ 0)) = 5%nat.
Proof.
  split; [|split; [|split]].
  - intros q. rewrite renderStars_unfold.
    split; [reflexivity|]. split; [reflexivity|]. split; [|split].
    + cbn [map].
      repeat (apply Forall2_cons;
              [ match goal with
                | |- numEq (fractionOf (Finite q) ?i) _ =>
                    destruct (fractionOf_finite q i) as [x [-> Hx]];
                    cbn [numEq]; exact Hx
                end | ]).
      constructor.
    + reflexivity.
    + unfold fills. rewrite map_map. cbn [map filledPercentage].
      repeat (apply Forall2_cons;
              [ match goal with
                | |- numEq (fillOf (Finite q) ?i) _ =>
                    rewrite (fillOf_finite q i); unfold ofZ; cbn [mul numEq];
                    reflexivity
                end | ]).
      constructor.
  - split; [|repeat split; vm_compute; reflexivity].
    repeat (apply Forall2_cons; [vm_compute; reflexivity|]). constructor.
  - vm_compute. reflexivity.
  - vm_compute. reflexivity.
Qed.

(** C9, as stated, fails: on the number NaN the fill of every star is NaN,
    which is not a percentage between 0 and 100. *)
Lemma C9_counterexample_NaN :
  fills (renderStars NaN) = [NaN; NaN; NaN; NaN; NaN]
  /\ ~ (List.length (renderStars NaN) = 5%nat
        /\ Forall (between 0 100) (fills (renderStars NaN))).
Proof.
  split; [reflexivity|].
  intros [_ H]. inversion H as [|x l Hx _]. exact Hx.
Qed.

(** C9, amended. For every rating, the star row has exactly 5 stars (in
    both variants of [renderStars]); and for every rating other than NaN,
    including the infinities, negative values and values above 5, each
    fill percentage is a finite number between 0 and 100. *)
Theorem C9_five_stars_fill_within_percent (rating : number) :
  List.length (renderStars rating) = 5%nat
  /\ List.length (renderStars14 rating) = 5%nat
  /\ (rating <> NaN ->
      Forall (between 0 100) (fills (renderStars rating))
      /\ Forall (between 0 100) (fills (renderStars14 rating))).
Proof.
  split; [reflexivity|]. split; [reflexivity|].
  intros H. rewrite renderStars_unfold, renderStars14_unfold.
  unfold fills. rewrite !map_map. cbn [map filledPercentage].
  split; repeat (apply Forall_cons; [apply fillOf_between; exact H|]);
    constructor.
Qed.

Lemma C9_witness_above_range :
  ofZ 7 <> NaN
  /\ Forall (between 0 100) (fills (renderStars (ofZ 7)))
  /\ Forall (between 0 100) (fills (renderStars (ofZ (-2)))).
Proof.
  split; [discriminate|]. split.
  - apply (C9_five_stars_fill_within_percent (ofZ 7)). discriminate.
  - apply (C9_five_stars_fill_within_percent (ofZ (-2))). discriminate.
Defined.

End StarClaims.

(** ** The submit handler *)

Section Submit.
Import Recommender.

Variable cfg : Variant.

Lemma setQuery_same (w : World) : setQuery (query (ui w)) w = w.
Proof. destruct w as [[q i p l] pe lg]. reflexivity. Qed.

Lemma commit_unchanged (w : World) : commit cfg (ui w) w = w.
Proof. unfold commit. now rewrite same_refl. Qed.

Lemma commit_changed (st : State) (w : World) :
  query st <> query (ui w) -> commit cfg st w = effect cfg w.
Proof.
  intros H. unfold commit.
  destruct (same (query st) (query (ui w))) eqn:E; [|reflexivity].
  apply same_eq in E. contradiction.
Qed.

Lemma handleSend_blank (w : World) :
  trim (input (ui w)) = [] -> handleSend w = w.
Proof. intros H. unfold handleSend. now rewrite H. Qed.

Lemma handleSend_repeat (w : World) :
  trim (input (ui w)) = query (ui w) -> handleSend w = w.
Proof.
  intros H. unfold handleSend. rewrite H.
  destruct (truthy (query (ui w))); [apply setQuery_same | reflexivity].
Qed.

Lemma handleSend_fresh (w : World) :
  trim (input (ui w)) <> [] ->
  handleSend w = setQuery (trim (input (ui w))) w.
Proof.
  intros H. unfold handleSend.
  apply truthy_true in H. now rewrite H.
Qed.

Lemma click_when_handler_idle (w : World) :
  handleSend w = w -> step cfg w Click = w.
Proof. intros H. simpl. rewrite H. apply commit_unchanged. Qed.

Lemma enter_when_handler_idle (w : World) :
  handleSend w = w -> step cfg w (KeyDown (lit "Enter")) = w.
Proof.
  intros H. simpl. destruct (hasKeyDown cfg); [|reflexivity].
  unfold onKeyDown. rewrite same_refl, H. apply commit_unchanged.
Qed.

Lemma posted_app (l1 l2 : list Effect) :
  posted (l1 ++ l2) = posted l1 ++ posted l2.
Proof.
  induction l1 as [|e l1 IH]; simpl; [reflexivity|].
  destruct e; simpl; now rewrite IH.
Qed.

Lemma errorsLogged_app (l1 l2 : list Effect) :
  errorsLogged (l1 ++ l2) = errorsLogged l1 ++ errorsLogged l2.
Proof.
  induction l1 as [|e l1 IH]; simpl; [reflexivity|].
  destruct e; simpl; now rewrite IH.
Qed.

Lemma fetchData_log (w : World) :
  log (fetchData cfg w)
  = log w ++ [SetLoading true; Post (requestOf cfg (query (ui w)))].
Proof. unfold fetchData. simpl. now rewrite <- app_assoc. Qed.

Lemma click_fresh (w : World) :
  trim (input (ui w)) <> [] ->
  trim (input (ui w)) <> query (ui w) ->
  step cfg w Click = fetchData cfg (setQuery (trim (input (ui w))) w).
Proof.
  intros Hne Hdiff. simpl. rewrite (handleSend_fresh w Hne).
  rewrite commit_changed by (simpl; congruence).
  unfold effect. simpl query.
  apply truthy_true in Hne. now rewrite Hne.
Qed.

(** C2. When the text field holds only whitespace (or nothing), a click
    on the button and the Enter key both leave the whole component, the
    outstanding requests and the log as they were, so no request is
    made; submitted to the freshly mounted component, such a text leaves
    the query unset and the loading flag false. *)
Theorem C2_whitespace_submission_is_ignored (S : jsstring) (w : World) :
  whitespaceOnly S ->
  step cfg (setInput S w) Click = setInput S w
  /\ step cfg (setInput S w) (KeyDown (lit "Enter")) = setInput S w
  /\ posted (log (submit cfg S w)) = posted (log w)
  /\ pending (submit cfg S w) = pending w
  /\ query (ui (submit cfg S (mounted cfg))) = []
  /\ loading (ui (submit cfg S (mounted cfg))) = false.
Proof.
  intros HS.
  assert (Hidle : forall w0, handleSend (setInput S w0) = setInput S w0).
  { intros w0. apply handleSend_blank. simpl. now apply trim_whitespaceOnly. }
  assert (Hclick : forall w0, step cfg (setInput S w0) Click = setInput S w0).
  { intros w0. apply click_when_handler_idle, Hidle. }
  split; [apply Hclick|].
  split; [apply enter_when_handler_idle, Hidle|].
  unfold submit. change (step cfg ?x (Change S)) with (setInput S x).
  rewrite !Hclick. repeat split; reflexivity.
Qed.

End Submit.

Lemma C2_witness_blanks :
  whitespaceOnly [32%N; 9%N; 160%N; 10%N]
  /\ Recommender.step Samples.live
       (Recommender.setInput [32%N; 9%N; 160%N; 10%N]
          Samples.populatedAndWaiting)
       Recommender.Click
     = Recommender.setInput [32%N; 9%N; 160%N; 10%N]
         Samples.populatedAndWaiting.
Proof.
  split; [reflexivity|].
  apply (C2_whitespace_submission_is_ignored Samples.live
           [32%N; 9%N; 160%N; 10%N] Samples.populatedAndWaiting).
  reflexivity.
Defined.

Section Resubmit.
Import Recommender.

Variable cfg : Variant.

(** C10. When the trimmed text of the field is the current query, a
    click (or Enter) changes nothing: the query keeps its value, the
    effect does not run and no request is posted.  A click that posts a
    request is therefore one whose trimmed text differs from the current
    query; and a click with a non-empty trimmed text that differs from the
    current query posts exactly one request, carrying that text. *)
Theorem C10_identical_resubmission_is_idle (w : World) :
  (trim (input (ui w)) = query (ui w) ->
     step cfg w Click = w
     /\ step cfg w (KeyDown (lit "Enter")) = w)
  /\ (posted (log (step cfg w Click)) <> posted (log w) ->
      trim (input (ui w)) <> query (ui w))
  /\ (trim (input (ui w)) <> [] ->
      trim (input (ui w)) <> query (ui w) ->
      posted (log (step cfg w Click))
      = posted (log w) ++ [requestOf cfg (trim (input (ui w)))]).
Proof.
  assert (Hsame : trim (input (ui w)) = query (ui w) ->
                  step cfg w Click = w
                  /\ step cfg w (KeyDown (lit "Enter")) = w).
  { intros H. split.
    - apply click_when_handler_idle, handleSend_repeat, H.
    - apply enter_when_handler_idle, handleSend_repeat, H. }
  split; [exact Hsame|]. split.
  - intros Hposted Heq. apply Hposted.
    destruct (Hsame Heq) as [-> _]. reflexivity.
  - intros Hne Hdiff. rewrite (click_fresh cfg w Hne Hdiff).
    rewrite fetchData_log, posted_app. reflexivity.
Qed.

End Resubmit.

Lemma C10_witness_same_text_twice :
  (trim (Recommender.input (Recommender.ui Samples.retyped))
   = Recommender.query (Recommender.ui Samples.retyped)
   /\ Recommender.step Samples.live Samples.retyped Recommender.Click
      = Samples.retyped)
  /\ (trim (Recommender.input (Recommender.ui Samples.typed)) <> []
      /\ trim (Recommender.input (Recommender.ui Samples.typed))
         <> Recommender.query (Recommender.ui Samples.typed)
      /\ Recommender.posted (Recommender.log
            (Recommender.step Samples.live Samples.typed Recommender.Click))
         = [Recommender.requestOf Samples.live Samples.wish]).
Proof.
  split.
  - split; [reflexivity|].
    apply (proj1 (C10_identical_resubmission_is_idle Samples.live
                    Samples.retyped)).
    reflexivity.
  - split; [discriminate|]. split; [discriminate|].
    apply (proj2 (proj2 (C10_identical_resubmission_is_idle Samples.live
                           Samples.typed))); discriminate.
Defined.

(** ** The request cycle, one step at a time *)

Section Cycle.
Import Recommender.

Variable cfg : Variant.

Lemma fetchData_settled_loading (s : Settlement) (w : World) :
  loading (ui (fetchData_settled s w)) = false.
Proof. reflexivity. Qed.

Lemma fetchData_settled_pending (s : Settlement) (w : World) :
  pending (fetchData_settled s w) = pending w.
Proof. unfold fetchData_settled. destruct (tryBlock s); reflexivity. Qed.

Lemma fetchData_settled_products (s : Settlement) (w : World) :
  products (ui (fetchData_settled s w))
  = match tryBlock s with inr l => l | inl _ => [] end.
Proof. unfold fetchData_settled. destruct (tryBlock s); reflexivity. Qed.

Lemma fetchData_settled_log (s : Settlement) (w : World) :
  log (fetchData_settled s w)
  = log w ++ match tryBlock s with
             | inr l => [SetProducts l; SetLoading false]
             | inl err => [ConsoleError err; SetProducts []; SetLoading false]
             end.
Proof.
  unfold fetchData_settled. destruct (tryBlock s); simpl;
    now rewrite <- !app_assoc.
Qed.

Lemma tryBlock_failed (s : Settlement) :
  failed s = true ->
  match tryBlock s with inr l => l | inl _ => [] end = [].
Proof. destruct s as [[c| |t]|err]; simpl; intros H; congruence. Qed.

(** Every event either leaves the component as it is, edits the text
    field, promotes a non-empty trimmed text and dispatches, or resumes
    [fetchData] for an outstanding request. *)
Lemma step_cases (w : World) (e : Event) :
  step cfg w e = w
  \/ (exists v, step cfg w e = setInput v w)
  \/ (trim (input (ui w)) <> []
      /\ step cfg w e = fetchData cfg (setQuery (trim (input (ui w))) w))
  \/ (exists n s r, e = Settle n s /\ nth_error (pending w) n = Some r
      /\ step cfg w e = fetchData_settled s (settle n w)).
Proof.
  assert (Hclick : step cfg w Click = w
                   \/ (trim (input (ui w)) <> []
                       /\ step cfg w Click
                          = fetchData cfg (setQuery (trim (input (ui w))) w))).
  { destruct (trim (input (ui w))) as [|c r] eqn:Et.
    - left. apply click_when_handler_idle, handleSend_blank, Et.
    - destruct (same (c :: r) (query (ui w))) eqn:Es.
      + apply same_eq in Es. left.
        apply click_when_handler_idle, handleSend_repeat. congruence.
      + right. split; [discriminate|]. rewrite <- Et. apply click_fresh.
        * rewrite Et. discriminate.
        * rewrite Et. intros E. rewrite <- E, same_refl in Es. discriminate. }
  destruct e as [v| |k|n s].
  - right. left. exists v. reflexivity.
  - destruct Hclick as [H|H]; [left; exact H | right; right; left; exact H].
  - simpl. destruct (hasKeyDown cfg); [|left; reflexivity].
    unfold onKeyDown. destruct (same k (lit "Enter")).
    + destruct Hclick as [H|H]; [left; exact H | right; right; left; exact H].
    + left. apply commit_unchanged.
  - simpl. destruct (nth_error (pending w) n) as [r|] eqn:En.
    + right. right. right. exists n, s, r. repeat split. exact En.
    + left. reflexivity.
Qed.

Lemma fold_step_invariant (P : World -> Prop) :
  (forall w e, P w -> P (step cfg w e)) ->
  forall events w, P w -> P (fold_left (step cfg) events w).
Proof.
  intros Hstep events. induction events as [|e events IH]; intros w Hw.
  - exact Hw.
  - simpl. apply IH, Hstep, Hw.
Qed.

Lemma run_invariant (P : World -> Prop) :
  P (mounted cfg) ->
  (forall w e, P w -> P (step cfg w e)) ->
  forall events, P (run cfg events).
Proof.
  intros H0 Hstep events. unfold run.
  apply fold_step_invariant; assumption.
Qed.

Lemma postsFollowLoading_snoc (l : list Effect) (e : Effect) :
  postsFollowLoading l ->
  (forall r, e = Post r -> exists l', l = l' ++ [SetLoading true]) ->
  postsFollowLoading (l ++ [e]).
Proof.
  intros Hl He before r after E.
  destruct after as [|a after'].
  - apply app_inj_tail in E as [-> ->]. now apply (He r).
  - destruct (exists_last (l := a :: after')) as [mid' [x' Hx']];
      [discriminate|].
    rewrite Hx' in E.
    change (before ++ Post r :: mid' ++ [x'])
      with (before ++ (Post r :: mid') ++ [x']) in E.
    rewrite app_assoc in E. apply app_inj_tail in E as [-> _].
    now apply (Hl before r mid').
Qed.

Lemma postsFollowLoading_step (w : World) (e : Event) :
  postsFollowLoading (log w) -> postsFollowLoading (log (step cfg w e)).
Proof.
  intros H.
  destruct (step_cases w e) as [-> | [[v ->] | [[_ ->] | [n [s [r [_ [_ ->]]]]]]]].
  - exact H.
  - exact H.
  - rewrite fetchData_log. simpl.
    change [SetLoading true; Post ?r] with ([SetLoading true] ++ [Post r]).
    rewrite app_assoc. apply postsFollowLoading_snoc.
    + apply postsFollowLoading_snoc; [exact H | discriminate].
    + intros r _. now exists (log w).
  - rewrite fetchData_settled_log. simpl log.
    destruct (tryBlock s) as [err|l].
    + change [ConsoleError err; SetProducts []; SetLoading false]
        with ([ConsoleError err; SetProducts []] ++ [SetLoading false]).
      rewrite app_assoc. apply postsFollowLoading_snoc; [|discriminate].
      change [ConsoleError err; SetProducts []]
        with ([ConsoleError err] ++ [SetProducts []]).
      rewrite app_assoc. apply postsFollowLoading_snoc; [|discriminate].
      apply postsFollowLoading_snoc; [exact H | discriminate].
    + change [SetProducts l; SetLoading false]
        with ([SetProducts l] ++ [SetLoading false]).
      rewrite app_assoc. apply postsFollowLoading_snoc; [|discriminate].
      apply postsFollowLoading_snoc; [exact H | discriminate].
Qed.

End Cycle.

(** ** Invariants of the request cycle *)

Section Invariants.
Import Recommender.

Variable cfg : Variant.

Lemma mounted_initial : mounted cfg = initial.
Proof. reflexivity. Qed.

(** While the loading flag is set, some request has not settled. *)
Lemma loading_needs_pending_step (w : World) (e : Event) :
  (loading (ui w) = true -> pending w <> []) ->
  loading (ui (step cfg w e)) = true -> pending (step cfg w e) <> [].
Proof.
  intros H.
  destruct (step_cases cfg w e)
    as [-> | [[v ->] | [[_ ->] | [n [s [r [_ [_ ->]]]]]]]].
  - exact H.
  - exact H.
  - intros _. simpl. intros E. apply app_eq_nil in E as [_ E]. discriminate.
  - rewrite fetchData_settled_loading. discriminate.
Qed.

Lemma loading_needs_pending (events : list Event) :
  loading (ui (run cfg events)) = true -> pending (run cfg events) <> [].
Proof.
  apply (run_invariant cfg
           (fun w => loading (ui w) = true -> pending w <> [])).
  - discriminate.
  - apply loading_needs_pending_step.
Qed.

Lemma fetchData_settled_query (s : Settlement) (w : World) :
  query (ui (fetchData_settled s w)) = query (ui w).
Proof. unfold fetchData_settled. destruct (tryBlock s); reflexivity. Qed.

Lemma fetchData_settled_posted (s : Settlement) (w : World) :
  posted (log (fetchData_settled s w)) = posted (log w).
Proof.
  rewrite fetchData_settled_log, posted_app.
  destruct (tryBlock s); simpl; apply app_nil_r.
Qed.

Lemma requestOf_wellFormed (q : jsstring) :
  q <> [] -> trim q = q ->
  wellFormed (endpoint cfg) (payloadKey cfg) (requestOf cfg q).
Proof.
  intros Hne Htrim. repeat split. exists q. repeat split; assumption.
Qed.

(** The query is always a trimmed text, and every request posted so far
    follows the contract. *)
Lemma contract_step (w : World) (e : Event) :
  trim (query (ui w)) = query (ui w)
  /\ Forall (wellFormed (endpoint cfg) (payloadKey cfg)) (posted (log w)) ->
  trim (query (ui (step cfg w e))) = query (ui (step cfg w e))
  /\ Forall (wellFormed (endpoint cfg) (payloadKey cfg))
            (posted (log (step cfg w e))).
Proof.
  intros [Hq Hposted].
  destruct (step_cases cfg w e)
    as [-> | [[v ->] | [[Hne ->] | [n [s [r [_ [_ ->]]]]]]]].
  - now split.
  - now split.
  - split.
    + simpl. apply trim_idempotent.
    + rewrite fetchData_log, posted_app. apply Forall_app. split.
      * exact Hposted.
      * simpl. constructor; [|constructor].
        apply requestOf_wellFormed; [exact Hne | apply trim_idempotent].
  - rewrite fetchData_settled_query, fetchData_settled_posted. now split.
Qed.

Lemma contract_holds (events : list Event) :
  trim (query (ui (run cfg events))) = query (ui (run cfg events))
  /\ Forall (wellFormed (endpoint cfg) (payloadKey cfg))
            (posted (log (run cfg events))).
Proof.
  apply (run_invariant cfg
           (fun w => trim (query (ui w)) = query (ui w)
                     /\ Forall (wellFormed (endpoint cfg) (payloadKey cfg))
                               (posted (log w)))).
  - split; [reflexivity | constructor].
  - apply contract_step.
Qed.

Lemma effect_guard (w : World) : query (ui w) = [] -> effect cfg w = w.
Proof. intros H. unfold effect. now rewrite H. Qed.

Lemma effect_fires (w : World) :
  query (ui w) <> [] -> effect cfg w = fetchData cfg w.
Proof.
  intros H. unfold effect. apply truthy_true in H. now rewrite H.
Qed.

End Invariants.

(** ** When the spinner and the results are shown together *)

Section Overlap.
Import Recommender.

Variable cfg : Variant.

Lemma run_snoc (events : list Event) (e : Event) :
  run cfg (events ++ [e]) = step cfg (run cfg events) e.
Proof. unfold run. now rewrite fold_left_app. Qed.

Lemma not_exclusive_iff (st : State) :
  ~ exclusive st <-> loading st = true /\ products st <> [].
Proof.
  unfold exclusive. split.
  - intros H. destruct (loading st); destruct (products st) as [|p ps].
    + exfalso. apply H. intros [_ N]. now apply N.
    + split; [reflexivity | discriminate].
    + exfalso. apply H. intros [L _]. discriminate L.
    + exfalso. apply H. intros [L _]. discriminate L.
  - intros H N. exact (N H).
Qed.

Lemma fetchData_settled_ends (s : Settlement) (w : World) :
  exists l, log (fetchData_settled s w) = l ++ [SetLoading false].
Proof.
  rewrite fetchData_settled_log. destruct (tryBlock s) as [err|l].
  - exists (log w ++ [ConsoleError err; SetProducts []]).
    now rewrite <- app_assoc.
  - exists (log w ++ [SetProducts l]). now rewrite <- app_assoc.
Qed.

(** The log is empty, or ends with the POST of a dispatch, or ends with
    the [setLoading(false)] of a settlement; the loading flag is set in
    the second case only. *)
Lemma log_tail (events : list Event) :
  (log (run cfg events) = [] /\ loading (ui (run cfg events)) = false)
  \/ (exists l r, log (run cfg events) = l ++ [Post r]
                  /\ loading (ui (run cfg events)) = true)
  \/ (exists l, log (run cfg events) = l ++ [SetLoading false]
                /\ loading (ui (run cfg events)) = false).
Proof.
  apply (run_invariant cfg
           (fun w => (log w = [] /\ loading (ui w) = false)
                     \/ (exists l r, log w = l ++ [Post r]
                                     /\ loading (ui w) = true)
                     \/ (exists l, log w = l ++ [SetLoading false]
                                   /\ loading (ui w) = false))).
  - left. split; reflexivity.
  - intros w e H.
    destruct (step_cases cfg w e)
      as [-> | [[v ->] | [[_ ->] | [n [s [r [_ [_ ->]]]]]]]].
    + exact H.
    + exact H.
    + right. left.
      exists (log w ++ [SetLoading true]),
             (requestOf cfg (trim (input (ui w)))).
      split; [|reflexivity].
      rewrite fetchData_log. simpl. now rewrite <- app_assoc.
    + right. right.
      destruct (fetchData_settled_ends s (settle n w)) as [l E].
      exists l. split; [exact E | reflexivity].
Qed.

Lemma loading_iff_last_is_post (events : list Event) :
  loading (ui (run cfg events)) = true
  <-> exists l r, log (run cfg events) = l ++ [Post r].
Proof.
  destruct (log_tail events) as [[E L] | [[l [r [E L]]] | [l [E L]]]].
  - rewrite L, E. split; [discriminate|].
    intros [l [r H]]. destruct l; discriminate H.
  - rewrite L. split; [|reflexivity]. intros _. now exists l, r.
  - rewrite L, E. split; [discriminate|].
    intros [l' [r H]]. apply app_inj_tail in H as [_ H]. discriminate H.
Qed.

Lemma overlap_forward (events : list Event) :
  ~ exclusive (ui (run cfg events)) -> dispatchedOverResults cfg events.
Proof.
  induction events as [|e0 events IH] using rev_ind; intros H.
  - apply not_exclusive_iff in H as [L _]. discriminate L.
  - rewrite run_snoc in H.
    assert (Extend : step cfg (run cfg events) e0 = run cfg events
                     \/ (exists v, step cfg (run cfg events) e0
                                   = setInput v (run cfg events)) ->
                     dispatchedOverResults cfg (events ++ [e0])).
    { intros Same.
      assert (U : products (ui (step cfg (run cfg events) e0))
                  = products (ui (run cfg events))
                  /\ loading (ui (step cfg (run cfg events) e0))
                     = loading (ui (run cfg events))
                  /\ log (step cfg (run cfg events) e0)
                     = log (run cfg events)).
      { destruct Same as [-> | [v ->]]; repeat split. }
      destruct U as [Up [Ul Ug]].
      assert (H' : ~ exclusive (ui (run cfg events))).
      { apply not_exclusive_iff. apply not_exclusive_iff in H.
        now rewrite Up, Ul in H. }
      destruct (IH H') as [prefix [e [rest [r [later [E [N [D [P [G F]]]]]]]]]].
      exists prefix, e, (rest ++ [e0]), r, later.
      rewrite run_snoc, Up, Ug. repeat split; try assumption.
      rewrite E, <- app_assoc. reflexivity. }
    destruct (step_cases cfg (run cfg events) e0)
      as [E | [[v E] | [[_ E] | [n [s [r [_ [_ E]]]]]]]].
    + apply Extend. left. exact E.
    + apply Extend. right. now exists v.
    + apply not_exclusive_iff in H as [_ N]. rewrite E in N.
      exists events, e0, [],
             (requestOf cfg (trim (input (ui (run cfg events))))), [].
      rewrite run_snoc, E, fetchData_log. repeat split.
      * exact N.
      * now rewrite app_nil_r.
      * constructor.
    + apply not_exclusive_iff in H as [L _]. rewrite E in L.
      discriminate L.
Qed.

Lemma overlap_backward (events : list Event) :
  dispatchedOverResults cfg events -> ~ exclusive (ui (run cfg events)).
Proof.
  intros [prefix [e [rest [r [later [E [N [D [P [G F]]]]]]]]]].
  apply not_exclusive_iff. split; [|now rewrite P].
  rewrite D in G.
  destruct (log_tail events) as [[T _] | [[l [r' [_ L]]] | [l [T _]]]].
  - rewrite T in G. destruct (log (run cfg prefix)); discriminate G.
  - exact L.
  - exfalso. rewrite T in G.
    destruct (exists_last (l := later)) as [later' [x X]].
    + intros Z. rewrite Z, app_nil_r in G.
      change [SetLoading true; Post r]
        with ([SetLoading true] ++ [Post r]) in G.
      rewrite app_assoc in G. apply app_inj_tail in G as [_ G].
      discriminate G.
    + rewrite X, !app_assoc in G. apply app_inj_tail in G as [_ G].
      unfold dispatchOnly in F. rewrite X in F.
      apply Forall_app in F as [_ F]. inversion F as [|y ys [Y|[r' Y]] _];
        subst; discriminate.
Qed.

End Overlap.

(** ** The claims about the request cycle *)

Section CycleClaims.
Import Recommender.

(** C1, as stated, fails twice.  After a first query has been answered
    with one record and a second query has been submitted, the loading
    flag is set while the list still holds the record of the first
    answer.  And with two requests outstanding, the first answer clears
    the loading flag, so that the second successful response finds it
    false already. *)
Lemma C1_counterexample_resubmission :
  loading (ui (run Samples.live Samples.resubmitted)) = true
  /\ products (ui (run Samples.live Samples.resubmitted)) = [Samples.productX]
  /\ ~ exclusive (ui (run Samples.live Samples.resubmitted))
  /\ loading (ui (run Samples.live Samples.overlapping)) = false
  /\ nth_error (pending (run Samples.live Samples.overlapping)) 0
     = Some (requestOf Samples.live (lit "mouse"))
  /\ products (ui (step Samples.live (run Samples.live Samples.overlapping)
                     (Settle 0 (Fulfilled (DataObject
                                  (CardsArray [Samples.productY]))))))
     = [Samples.productY].
Proof.
  split; [reflexivity|]. split; [reflexivity|]. split.
  - intros H. apply H. split; [reflexivity | discriminate].
  - repeat split; reflexivity.
Qed.

(** C1, amended. At every instant of every run at most one of the two
    holds (the loading flag is set, the product list is non-empty),
    except from a dispatch made while the list was non-empty until the
    next settlement; in those states, and only in those, both hold.  A
    dispatch sets the flag and keeps the list; the flag is set only while
    a request is outstanding, and it is set exactly when nothing has
    settled since the latest dispatch.  Every successful response of an
    outstanding request leaves the flag false and the list equal to
    exactly the parsed list (the [cards] of the body, or the empty list),
    whatever the list was before; the flag was set before the response
    exactly when the log ended with a POST. *)
Theorem C1_loading_and_results (cfg : Variant) :
  (forall events,
      ~ exclusive (ui (run cfg events)) <-> dispatchedOverResults cfg events)
  /\ (forall w,
         loading (ui (fetchData cfg w)) = true
         /\ products (ui (fetchData cfg w)) = products (ui w))
  /\ (forall events,
         (loading (ui (run cfg events)) = true ->
          pending (run cfg events) <> [])
         /\ (loading (ui (run cfg events)) = true
             <-> exists l r, log (run cfg events) = l ++ [Post r]))
  /\ (forall w n s r,
         nth_error (pending w) n = Some r ->
         exclusive (ui (step cfg w (Settle n s))))
  /\ (forall w n r c,
         nth_error (pending w) n = Some r ->
         loading (ui (step cfg w (Settle n (Fulfilled (DataObject c)))))
         = false
         /\ products (ui (step cfg w (Settle n (Fulfilled (DataObject c)))))
            = cardsOrEmpty c).
Proof.
  split; [|split; [|split; [|split]]].
  - intros events. split; [apply overlap_forward | apply overlap_backward].
  - intros w. split; reflexivity.
  - intros events. split.
    + apply loading_needs_pending.
    + apply loading_iff_last_is_post.
  - intros w n s r Hn. simpl. rewrite Hn. intros [L _].
    rewrite fetchData_settled_loading in L. discriminate L.
  - intros w n r c Hn. simpl. rewrite Hn. split; reflexivity.
Qed.

(** C3. In every run, each POST in the log comes directly after
    [setLoading(true)]: [fetchData] appends exactly these two effects, in
    this order, and leaves the flag set.  When an outstanding request
    settles, however it settles, the flag is false afterwards, the last
    effect is [setLoading(false)], and the request is no longer
    outstanding. *)
Theorem C3_loading_brackets_every_request (cfg : Variant) :
  (forall events, postsFollowLoading (log (run cfg events)))
  /\ (forall w,
         log (fetchData cfg w)
         = log w ++ [SetLoading true; Post (requestOf cfg (query (ui w)))]
         /\ loading (ui (fetchData cfg w)) = true)
  /\ (forall w n s r,
         nth_error (pending w) n = Some r ->
         loading (ui (step cfg w (Settle n s))) = false
         /\ (exists l, log (step cfg w (Settle n s)) = l ++ [SetLoading false])
         /\ pending (step cfg w (Settle n s)) = removeNth n (pending w)).
Proof.
  split; [|split].
  - apply (run_invariant cfg (fun w => postsFollowLoading (log w))).
    + intros [|x before] r after E; discriminate.
    + apply postsFollowLoading_step.
  - intros w. split; [apply fetchData_log | reflexivity].
  - intros w n s r Hn. simpl. rewrite Hn. split; [reflexivity|]. split.
    + rewrite fetchData_settled_log. destruct (tryBlock s) as [err|l].
      * exists (log (settle n w) ++ [ConsoleError err; SetProducts []]).
        now rewrite <- app_assoc.
      * exists (log (settle n w) ++ [SetProducts l]).
        now rewrite <- app_assoc.
    + apply fetchData_settled_pending.
Qed.

(** C4. When the list holds N > 0 records and an outstanding request
    fails (the promise is rejected for a network error, a non-2xx status
    or a malformed body, or the body is not a JSON object), the list is
    empty afterwards and the loading flag is false. *)
Theorem C4_failure_clears_results
        (cfg : Variant) (w : World) (n : nat) (s : Settlement) (r : Request) :
  (0 < List.length (products (ui w)))%nat ->
  failed s = true ->
  nth_error (pending w) n = Some r ->
  products (ui (step cfg w (Settle n s))) = []
  /\ loading (ui (step cfg w (Settle n s))) = false.
Proof.
  intros _ Hfail Hn. simpl. rewrite Hn. split; [|reflexivity].
  rewrite fetchData_settled_products. now apply tryBlock_failed.
Qed.

(** C5. A successful response whose body has no [cards] field (the body
    [{}]) throws nothing, leaves the list empty and the grid without
    cards, writes no error to the console and clears the loading flag;
    when the field holds a list, the list of the component is exactly that
    list. *)
Theorem C5_missing_cards_defaults_to_empty
        (tr loc : number -> jsstring) (w : World) :
  tryBlock (Fulfilled (DataObject CardsMissing)) = inr []
  /\ products (ui (fetchData_settled (Fulfilled (DataObject CardsMissing)) w))
     = []
  /\ grid (ProductRecommender tr loc
             (fetchData_settled (Fulfilled (DataObject CardsMissing)) w))
     = []
  /\ errorsLogged
       (log (fetchData_settled (Fulfilled (DataObject CardsMissing)) w))
     = errorsLogged (log w)
  /\ loading (ui (fetchData_settled (Fulfilled (DataObject CardsMissing)) w))
     = false
  /\ (forall l,
         tryBlock (Fulfilled (DataObject (CardsArray l))) = inr l
         /\ products
              (ui (fetchData_settled
                     (Fulfilled (DataObject (CardsArray l))) w))
            = l).
Proof.
  repeat split.
  rewrite fetchData_settled_log, errorsLogged_app. simpl. apply app_nil_r.
Qed.

(** C7. The effect does nothing while the query is empty.  When the query
    is non-empty it posts exactly one request: a POST to the endpoint of
    the variant, whose body has the single field of the variant carrying
    the query.  In every run, each request posted so far is such a POST
    and carries a non-empty, trimmed text.  The endpoint is the configured
    base URL followed by /recommendation (a fixed host in the variant
    that sends the field [query]). *)
Theorem C7_request_contract (cfg : Variant) :
  (forall w, query (ui w) = [] -> effect cfg w = w)
  /\ (forall w,
         query (ui w) <> [] ->
         posted (log (effect cfg w))
         = posted (log w)
           ++ [ {| method := POST; url := endpoint cfg;
                   body := [(payloadKey cfg, query (ui w))] |} ])
  /\ (forall events,
         trim (query (ui (run cfg events))) = query (ui (run cfg events))
         /\ Forall (wellFormed (endpoint cfg) (payloadKey cfg))
                   (posted (log (run cfg events))))
  /\ (forall base,
         endpoint (part_001 (Some base)) = base ++ lit "/recommendation")
  /\ endpoint part_003 = lit "http://localhost:5001" ++ lit "/recommendation".
Proof.
  split; [|split; [|split; [|split]]].
  - apply effect_guard.
  - intros w H. rewrite (effect_fires cfg w H), fetchData_log, posted_app.
    reflexivity.
  - apply contract_holds.
  - reflexivity.
  - reflexivity.
Qed.

(** C8. A record of the list whose [image] is null is shown by a card
    whose image source is '/placeholder.png'; a record with an image is
    shown with that image as the source. *)
Theorem C8_image_falls_back_to_placeholder
        (tr loc : number -> jsstring) (w : World) (i : nat)
        (product : Product) :
  nth_error (products (ui w)) i = Some product ->
  exists card,
    nth_error (grid (ProductRecommender tr loc w)) i = Some card
    /\ (image product = None -> Card.imgSrc card = lit "/placeholder.png")
    /\ (forall src, image product = Some src -> Card.imgSrc card = src).
Proof.
  intros Hi.
  exists (Card.ProductCard loc (propsOf tr product)). split.
  - unfold ProductRecommender. cbn [grid].
    destruct (products (ui w)) as [|p ps] eqn:E.
    + destruct i; discriminate.
    + change (0 <? Z.of_nat (List.length (p :: ps)))%Z with true.
      cbn iota.
      exact (map_nth_error
               (fun x => Card.ProductCard loc (propsOf tr x)) i (p :: ps) Hi).
  - split.
    + intros H. simpl. now rewrite H.
    + intros src H. simpl. now rewrite H.
Qed.

End CycleClaims.

(** ** The claims at concrete inputs *)

Section Witnesses.
Import Recommender.

Lemma C1_witness_answer_replaces_list :
  nth_error (pending Samples.populatedAndWaiting) 0
  = Some (requestOf Samples.live (lit "mouse"))
  /\ loading (ui (step Samples.live Samples.populatedAndWaiting
                    (Settle 0 (Fulfilled (DataObject
                                 (CardsArray [Samples.productY]))))))
     = false
  /\ products (ui (step Samples.live Samples.populatedAndWaiting
                     (Settle 0 (Fulfilled (DataObject
                                  (CardsArray [Samples.productY]))))))
     = [Samples.productY]
  /\ loading (ui (run Samples.live Samples.resubmitted)) = true
  /\ pending (run Samples.live Samples.resubmitted) <> []
  /\ ~ exclusive (ui (run Samples.live Samples.resubmitted))
  /\ dispatchedOverResults Samples.live Samples.resubmitted
  /\ exclusive (ui (run Samples.live [Change Samples.wish; Click])).
Proof.
  split; [reflexivity|].
  destruct (C1_loading_and_results Samples.live)
    as [Hover [_ [Hrun [_ Hsettle]]]].
  destruct (Hsettle Samples.populatedAndWaiting 0%nat
              (requestOf Samples.live (lit "mouse"))
              (CardsArray [Samples.productY]) eq_refl) as [Hl Hp].
  split; [exact Hl|]. split; [exact Hp|]. split; [reflexivity|].
  split; [apply (proj1 (Hrun Samples.resubmitted)); reflexivity|].
  assert (N : ~ exclusive (ui (run Samples.live Samples.resubmitted))).
  { intros H. apply H. split; [reflexivity | discriminate]. }
  split; [exact N|]. split.
  - exact (proj1 (Hover Samples.resubmitted) N).
  - intros [_ P]. apply P. reflexivity.
Defined.

Lemma C3_witness_rejected_request :
  nth_error (pending Samples.populatedAndWaiting) 0
  = Some (requestOf Samples.live (lit "mouse"))
  /\ loading (ui Samples.populatedAndWaiting) = true
  /\ loading (ui (step Samples.live Samples.populatedAndWaiting
                    (Settle 0 (Rejected NetworkError)))) = false
  /\ pending (step Samples.live Samples.populatedAndWaiting
                (Settle 0 (Rejected NetworkError))) = [].
Proof.
  split; [reflexivity|]. split; [reflexivity|].
  destruct (C3_loading_brackets_every_request Samples.live) as [_ [_ H]].
  destruct (H Samples.populatedAndWaiting 0%nat (Rejected NetworkError)
              (requestOf Samples.live (lit "mouse")) eq_refl)
    as [Hl [_ Hp]].
  split; [exact Hl | exact Hp].
Defined.

Lemma C4_witness_server_error :
  (0 < List.length (products (ui Samples.populatedAndWaiting)))%nat
  /\ failed (Rejected (StatusError 500)) = true
  /\ nth_error (pending Samples.populatedAndWaiting) 0
     = Some (requestOf Samples.live (lit "mouse"))
  /\ products (ui (step Samples.live Samples.populatedAndWaiting
                     (Settle 0 (Rejected (StatusError 500))))) = []
  /\ loading (ui (step Samples.live Samples.populatedAndWaiting
                    (Settle 0 (Rejected (StatusError 500))))) = false.
Proof.
  split; [simpl; lia|]. split; [reflexivity|]. split; [reflexivity|].
  apply (C4_failure_clears_results Samples.live Samples.populatedAndWaiting
           0%nat (Rejected (StatusError 500))
           (requestOf Samples.live (lit "mouse"))).
  - simpl. lia.
  - reflexivity.
  - reflexivity.
Defined.

Lemma C7_witness_first_query :
  effect Samples.live initial = initial
  /\ posted (log (effect Samples.live (setQuery Samples.wish initial)))
     = [ {| method := POST;
            url := Samples.base ++ lit "/recommendation";
            body := [(lit "prompt", Samples.wish)] |} ].
Proof.
  destruct (C7_request_contract Samples.live) as [Hguard [Hfire _]].
  split.
  - apply (Hguard initial). reflexivity.
  - apply (Hfire (setQuery Samples.wish initial)). discriminate.
Defined.

Lemma C8_witness_record_without_image :
  nth_error (products (ui Samples.populatedAndWaiting)) 0
  = Some Samples.productX
  /\ image Samples.productX = None
  /\ exists card,
       nth_error (grid (ProductRecommender Samples.plainDigits
                          Samples.plainDigits Samples.populatedAndWaiting)) 0
       = Some card
       /\ Card.imgSrc card = lit "/placeholder.png".
Proof.
  split; [reflexivity|]. split; [reflexivity|].
  destruct (C8_image_falls_back_to_placeholder Samples.plainDigits
              Samples.plainDigits Samples.populatedAndWaiting 0%nat
              Samples.productX eq_refl) as [card [Hcard [Hnone _]]].
  exists card. split; [exact Hcard | exact (Hnone eq_refl)].
Defined.

(** The end-to-end scenario: the wish is typed and submitted, one POST
    goes out with the wish under [prompt], the answer holds one record
    without an image; the grid then shows one card titled "X" with the
    placeholder image, the stars of rating 4.5 and the link of the
    record. *)
Example end_to_end :
  let asked := run Samples.live [Change Samples.wish; Click] in
  let answered :=
      step Samples.live asked
           (Settle 0 (Fulfilled (DataObject (CardsArray [Samples.productX])))) in
  posted (log asked) = [requestOf Samples.live Samples.wish]
  /\ loading (ui asked) = true
  /\ loading (ui answered) = false
  /\ map (fun c => (Card.heading c, Card.imgSrc c, Card.buyHref c))
         (grid (ProductRecommender Samples.plainDigits Samples.plainDigits
                  answered))
     = [(lit "X", lit "/placeholder.png", lit "https://example.com/x")]
  /\ Forall (fun c => Forall2 numEq (Card.fills (Card.starRow c))
                        [ofZ 100; ofZ 100; ofZ 100; ofZ 100; ofZ 50])
            (grid (ProductRecommender Samples.plainDigits Samples.plainDigits
                     answered)).
Proof.
  cbv zeta. repeat (split; [reflexivity|]).
  constructor; [|constructor].
  repeat (apply Forall2_cons; [vm_compute; reflexivity|]). constructor.
Qed.

End Witnesses.

(** ** More about the star rows *)

Section StarRows.
Import Card Measures.

Lemma clampUnit_cases (x : Q) :
  (x <= 0 /\ clampUnit x = 0)%Q
  \/ (1 <= x /\ clampUnit x = 1)%Q
  \/ (0 < x /\ x < 1 /\ clampUnit x = x)%Q.
Proof.
  unfold clampUnit. destruct (Qle_bool x 0) eqn:E0.
  - left. apply Qle_bool_iff in E0. split; [exact E0 | reflexivity].
  - assert (H0 : ~ (x <= 0)%Q) by (rewrite <- Qle_bool_iff; congruence).
    destruct (Qle_bool 1 x) eqn:E1.
    + right. left. apply Qle_bool_iff in E1. split; [exact E1 | reflexivity].
    + assert (H1 : ~ (1 <= x)%Q) by (rewrite <- Qle_bool_iff; congruence).
      right. right. repeat split; lra.
Qed.

Lemma clampUnit_monotone (x y : Q) :
  (x <= y)%Q -> (clampUnit x <= clampUnit y)%Q.
Proof.
  intros H.
  destruct (clampUnit_cases x) as [[Hx ->] | [[Hx ->] | [Hx [Hx' ->]]]];
    destruct (clampUnit_cases y) as [[Hy ->] | [[Hy ->] | [Hy [Hy' ->]]]];
    lra.
Qed.

Lemma fillOf_value (q : Q) (i : Z) :
  valueOf (fillOf (Finite q) i)
  = round53 (clampUnit (q - inject_Z (i - 1)) * 100).
Proof. rewrite fillOf_finite. reflexivity. Qed.

Lemma fillAt_renderStars (rating : number) (i : nat) :
  (i < 5)%nat ->
  fillAt (renderStars rating) i
  = valueOf (fillOf rating (Z.of_nat i + 1)).
Proof.
  intros H. do 5 (destruct i as [|i]; [reflexivity|]). lia.
Qed.

Lemma fillAt_finite (q : Q) (i : nat) :
  (i < 5)%nat ->
  fillAt (renderStars (Finite q)) i
  = round53 (clampUnit (q - inject_Z (Z.of_nat i)) * 100).
Proof.
  intros H. rewrite (fillAt_renderStars (Finite q) i H), fillOf_value.
  now replace (Z.of_nat i + 1 - 1)%Z with (Z.of_nat i) by lia.
Qed.

(** The percentage of a star, by the position of the difference [d]
    between the rating and the stars before it. *)
Lemma fill_trichotomy (d : Q) :
  (d <= 0 /\ round53 (clampUnit d * 100) == 0)%Q
  \/ (1 <= d /\ round53 (clampUnit d * 100) == 100)%Q
  \/ (0 < d /\ d < 1
      /\ 100 * d - 2 ^ (-47) <= round53 (clampUnit d * 100)
      /\ round53 (clampUnit d * 100) <= 100 * d + 2 ^ (-47)
      /\ 0 < round53 (clampUnit d * 100)
      /\ round53 (clampUnit d * 100) <= 100)%Q.
Proof.
  destruct (clampUnit_cases d) as [[H ->] | [[H ->] | [H [H' ->]]]].
  - left. split; [exact H|]. now rewrite (round53_of_zero (0 * 100)).
  - right. left. split; [exact H|].
    rewrite (round53_comp (1 * 100) 100) by reflexivity.
    now rewrite round53_100.
  - right. right. split; [exact H|]. split; [exact H'|].
    destruct (round53_error_below_128 (d * 100)) as [Lo Hi]; [lra | lra |].
    destruct (round53_percent d) as [_ Top]; [lra | lra |].
    destruct (round53_sign (d * 100)) as [Pos _].
    assert (P : (0 < d * 100)%Q) by lra. specialize (Pos P).
    set (r := round53 (d * 100)) in *. set (v := (2 ^ (-47))%Q) in *.
    repeat split; lra.
Qed.

(** X1. The fills of the five stars add up to 100 times the rating, up
    to the rounding of the one product that is not exact: for a rating in
    [0,5] the total lies within 2^-47 of 100 times the rating.  It is
    exactly 0 for a rating at or below 0 and exactly 500 at or above 5. *)
Theorem X1_fills_add_up_to_rating (q : Q) :
  ((0 <= q /\ q <= 5 ->
    100 * q - 2 ^ (-47) <= totalFill (renderStars (Finite q))
    /\ totalFill (renderStars (Finite q)) <= 100 * q + 2 ^ (-47))
   /\ (q <= 0 -> totalFill (renderStars (Finite q)) == 0)
   /\ (5 <= q -> totalFill (renderStars (Finite q)) == 500))%Q.
Proof.
  assert (E : (totalFill (renderStars (Finite q))
               == round53 (clampUnit (q - 0) * 100)
                  + round53 (clampUnit (q - 1) * 100)
                  + round53 (clampUnit (q - 2) * 100)
                  + round53 (clampUnit (q - 3) * 100)
                  + round53 (clampUnit (q - 4) * 100))%Q).
  { rewrite renderStars_unfold. unfold totalFill.
    cbn [map fold_right filledPercentage].
    rewrite !fillOf_value. cbn [Z.sub Z.add Z.opp Z.pos_sub Pos.pred_double].
    change (inject_Z 0) with 0%Q. change (inject_Z 1) with 1%Q.
    change (inject_Z 2) with 2%Q. change (inject_Z 3) with 3%Q.
    change (inject_Z 4) with 4%Q. ring. }
  rewrite E.
  pose proof (pow2_pos (-47)) as V.
  destruct (fill_trichotomy (q - 0)) as [[H0 F0] | [[H0 F0] | [H0 [H0' [L0 [U0 _]]]]]];
  destruct (fill_trichotomy (q - 1)) as [[H1 F1] | [[H1 F1] | [H1 [H1' [L1 [U1 _]]]]]];
  destruct (fill_trichotomy (q - 2)) as [[H2 F2] | [[H2 F2] | [H2 [H2' [L2 [U2 _]]]]]];
  destruct (fill_trichotomy (q - 3)) as [[H3 F3] | [[H3 F3] | [H3 [H3' [L3 [U3 _]]]]]];
  destruct (fill_trichotomy (q - 4)) as [[H4 F4] | [[H4 F4] | [H4 [H4' [L4 [U4 _]]]]]];
  try (exfalso; lra);
  set (f0 := round53 (clampUnit (q - 0) * 100)) in *;
  set (f1 := round53 (clampUnit (q - 1) * 100)) in *;
  set (f2 := round53 (clampUnit (q - 2) * 100)) in *;
  set (f3 := round53 (clampUnit (q - 3) * 100)) in *;
  set (f4 := round53 (clampUnit (q - 4) * 100)) in *;
  set (v := (2 ^ (-47))%Q) in *;
  repeat split; intros; lra.
Qed.

Lemma X1_witness_four_point_seven :
  (0 <= 5291729562160333 # 1125899906842624
   /\ 5291729562160333 # 1125899906842624 <= 5)%Q
  /\ (100 * (5291729562160333 # 1125899906842624) - 2 ^ (-47)
      <= totalFill (renderStars
                      (Finite (5291729562160333 # 1125899906842624))))%Q
  /\ (valueOf (fillOf (Finite (5291729562160333 # 1125899906842624)) 5)
      == 4925812092436481 # 70368744177664)%Q.
Proof.
  assert (R : (0 <= 5291729562160333 # 1125899906842624
               /\ 5291729562160333 # 1125899906842624 <= 5)%Q)
    by (split; discriminate).
  split; [exact R|]. split; [|vm_compute; reflexivity].
  exact (proj1 (proj1 (X1_fills_add_up_to_rating
                         (5291729562160333 # 1125899906842624)) R)).
Defined.

End StarRows.

Section StarOrder.
Import Card Measures.

Lemma inject_Z_succ (i : nat) :
  (inject_Z (Z.of_nat (S i)) == inject_Z (Z.of_nat i) + 1)%Q.
Proof.
  rewrite Nat2Z.inj_succ. unfold Z.succ. rewrite inject_Z_plus. reflexivity.
Qed.

(** X2. Along the row the fill never increases, and a star has any
    fill only when the star before it is filled to 100%: at most one star
    of the row is partly filled. *)
Theorem X2_fill_runs_left_to_right (q : Q) (i : nat) :
  (i < 4)%nat ->
  (fillAt (renderStars (Finite q)) (S i) <= fillAt (renderStars (Finite q)) i
   /\ (0 < fillAt (renderStars (Finite q)) (S i) ->
       fillAt (renderStars (Finite q)) i == 100))%Q.
Proof.
  intros H.
  rewrite (fillAt_finite q (S i)) by lia. rewrite (fillAt_finite q i) by lia.
  set (d := (q - inject_Z (Z.of_nat i))%Q).
  set (e := (q - inject_Z (Z.of_nat (S i)))%Q).
  assert (E : (e == d - 1)%Q)
    by (unfold d, e; rewrite inject_Z_succ; ring).
  destruct (fill_trichotomy d) as [[Hd Fd] | [[Hd Fd] | [Hd [Hd' [_ [_ [Pd Td]]]]]]];
    destruct (fill_trichotomy e)
      as [[He Fe] | [[He Fe] | [He [He' [_ [_ [Pe Te]]]]]]];
    set (fd := round53 (clampUnit d * 100)) in *;
    set (fe := round53 (clampUnit e * 100)) in *;
    split; intros; lra.
Qed.

Lemma X2_witness_half_star :
  (3 < 4)%nat
  /\ (0 < fillAt (renderStars (Finite (7 # 2))) 3)%Q
  /\ (fillAt (renderStars (Finite (7 # 2))) 2 == 100)%Q.
Proof.
  split; [lia|].
  assert (P : (0 < fillAt (renderStars (Finite (7 # 2))) 3)%Q) by reflexivity.
  split; [exact P|].
  apply (proj2 (X2_fill_runs_left_to_right (7 # 2) 2%nat ltac:(lia))).
  exact P.
Defined.

(** X3. A higher rating never lowers the fill of any star. *)
Theorem X3_fill_grows_with_rating (q q' : Q) (i : nat) :
  (q <= q')%Q -> (i < 5)%nat ->
  (fillAt (renderStars (Finite q)) i <= fillAt (renderStars (Finite q')) i)%Q.
Proof.
  intros Hq Hi.
  rewrite (fillAt_finite q i Hi), (fillAt_finite q' i Hi).
  assert (M : (clampUnit (q - inject_Z (Z.of_nat i))
               <= clampUnit (q' - inject_Z (Z.of_nat i)))%Q)
    by (apply clampUnit_monotone; lra).
  apply round53_monotone. lra.
Qed.

Lemma X3_witness_three_to_four :
  (3 <= 7 # 2)%Q /\ (3 < 5)%nat
  /\ (fillAt (renderStars (Finite 3)) 3
      <= fillAt (renderStars (Finite (7 # 2))) 3)%Q.
Proof.
  split; [discriminate|]. split; [lia|].
  apply (X3_fill_grows_with_rating 3 (7 # 2) 3%nat); [discriminate | lia].
Defined.

(** X4. A whole rating n between 0 and 5 gives exactly n stars filled to
    100% and 5 - n stars filled to 0%, in both variants of
    [renderStars]. *)
Theorem X4_whole_rating_whole_stars (n : nat) :
  (n <= 5)%nat ->
  countFill 100 (renderStars (ofZ (Z.of_nat n))) = n
  /\ countFill 0 (renderStars (ofZ (Z.of_nat n))) = (5 - n)%nat
  /\ countFill 100 (renderStars14 (ofZ (Z.of_nat n))) = n
  /\ countFill 0 (renderStars14 (ofZ (Z.of_nat n))) = (5 - n)%nat.
Proof.
  intros H.
  do 6 (destruct n as [|n]; [repeat split; vm_compute; reflexivity|]).
  lia.
Qed.

Lemma X4_witness_four_stars :
  (4 <= 5)%nat /\ countFill 100 (renderStars (ofZ (Z.of_nat 4))) = 4%nat.
Proof.
  split; [lia|].
  apply (X4_whole_rating_whole_stars 4). lia.
Defined.

End StarOrder.

(** ** The rows of whole stars *)

Section WholeStarRows.
Import Card WholeStars.

Lemma lessThan_fill (rating : number) (k : Z) :
  lessThan (ofZ k) rating = lessThan (ofZ 0) (fillOf rating (k + 1)).
Proof.
  destruct rating as [| |q|].
  - reflexivity.
  - vm_compute. reflexivity.
  - rewrite fillOf_finite. unfold specFillFraction, ofZ.
    replace (k + 1 - 1)%Z with k by lia. cbn [lessThan].
    change (inject_Z 0) with 0%Q. f_equal.
    apply eq_true_iff_eq. rewrite !Qle_bool_iff.
    destruct (fill_trichotomy (q - inject_Z k))
      as [[H F] | [[H F] | [H [H' [_ [_ [P _]]]]]]];
      set (f := round53 (clampUnit (q - inject_Z k) * 100)) in *;
      split; intros; lra.
  - vm_compute. reflexivity.
Qed.

Lemma lessThan_ceiling (q : Q) (k : Z) :
  lessThan (ofZ k) (Finite q) = (k <? Qceiling q)%Z.
Proof.
  unfold ofZ. cbn [lessThan]. apply eq_true_iff_eq.
  rewrite negb_true_iff, Z.ltb_lt. split.
  - intros H.
    assert (N : ~ (q <= inject_Z k)%Q) by (rewrite <- Qle_bool_iff; congruence).
    pose proof (Qle_ceiling q) as C.
    assert (Lt : (inject_Z k < inject_Z (Qceiling q))%Q) by lra.
    now rewrite <- Zlt_Qlt in Lt.
  - intros H.
    destruct (Qle_bool q (inject_Z k)) eqn:E; [|reflexivity].
    apply Qle_bool_iff in E. pose proof (Qceiling_lt q) as C.
    assert (Lt : (inject_Z (Qceiling q - 1) < inject_Z k)%Q) by lra.
    rewrite <- Zlt_Qlt in Lt. lia.
Qed.

Lemma coloured_listing (i : Z) (b : bool) :
  coloured (mkWholeStar i 14 (if b then lit "#facc15" else grey)) = b.
Proof. destruct b; reflexivity. Qed.

Lemma coloured_earlier (i : Z) (b : bool) :
  coloured (mkWholeStar i 14 (if b then lit "var(--primary-color)" else grey))
  = b.
Proof. destruct b; reflexivity. Qed.

(** X5. The cards with whole stars colour exactly the stars to which
    [renderStars] gives a fill above 0, whatever the rating (for NaN:
    none). *)
Theorem X5_whole_star_coloured_iff_some_fill (rating : number) :
  map coloured (starsOfEarlierCard rating)
  = map (fun s => lessThan (ofZ 0) (filledPercentage s)) (renderStars rating)
  /\ map coloured (starsOfListingCard rating)
     = map (fun s => lessThan (ofZ 0) (filledPercentage s))
           (renderStars rating).
Proof.
  rewrite renderStars_unfold.
  unfold starsOfEarlierCard, starsOfListingCard, starsWith.
  cbn [seq map filledPercentage].
  rewrite !coloured_listing, !coloured_earlier.
  cbn [Z.of_nat Pos.of_succ_nat Pos.succ].
  rewrite (lessThan_fill rating 0), (lessThan_fill rating 1),
    (lessThan_fill rating 2), (lessThan_fill rating 3),
    (lessThan_fill rating 4).
  split; reflexivity.
Qed.

(** X6. On a finite rating both cards with whole stars colour as many
    stars as the rating rounded up, kept between 0 and 5; both colour
    none on NaN and on -Infinity, and all five on Infinity. *)
Theorem X6_whole_stars_round_up (q : Q) :
  countColoured (starsOfEarlierCard (Finite q))
  = Z.to_nat (Z.max 0 (Z.min 5 (Qceiling q)))
  /\ countColoured (starsOfListingCard (Finite q))
     = Z.to_nat (Z.max 0 (Z.min 5 (Qceiling q)))
  /\ countColoured (starsOfEarlierCard NaN) = 0%nat
  /\ countColoured (starsOfEarlierCard NegInfinity) = 0%nat
  /\ countColoured (starsOfEarlierCard Infinity) = 5%nat
  /\ countColoured (starsOfListingCard NaN) = 0%nat
  /\ countColoured (starsOfListingCard NegInfinity) = 0%nat
  /\ countColoured (starsOfListingCard Infinity) = 5%nat.
Proof.
  split; [|split; [|repeat split]].
  - unfold starsOfEarlierCard, starsWith. cbn [seq map].
    rewrite !lessThan_ceiling. cbn [Z.of_nat Pos.of_succ_nat Pos.succ].
    destruct (Z.ltb_spec 0 (Qceiling q)); destruct (Z.ltb_spec 1 (Qceiling q));
      destruct (Z.ltb_spec 2 (Qceiling q)); destruct (Z.ltb_spec 3 (Qceiling q));
      destruct (Z.ltb_spec 4 (Qceiling q));
      try lia; vm_compute countColoured; lia.
  - unfold starsOfListingCard, starsWith. cbn [seq map].
    rewrite !lessThan_ceiling. cbn [Z.of_nat Pos.of_succ_nat Pos.succ].
    destruct (Z.ltb_spec 0 (Qceiling q)); destruct (Z.ltb_spec 1 (Qceiling q));
      destruct (Z.ltb_spec 2 (Qceiling q)); destruct (Z.ltb_spec 3 (Qceiling q));
      destruct (Z.ltb_spec 4 (Qceiling q));
      try lia; vm_compute countColoured; lia.
Qed.

End WholeStarRows.

(** ** What the submit handler promotes *)

Section Promotion.
Import Recommender.

Lemma trimStart_decompose (s : jsstring) :
  exists pre, s = pre ++ trimStart s /\ whitespaceOnly pre.
Proof.
  induction s as [|c r [pre [E W]]].
  - exists []. split; reflexivity.
  - simpl. destruct (isWhiteSpace c) eqn:Hc.
    + exists (c :: pre). split.
      * simpl. now rewrite <- E.
      * unfold whitespaceOnly. simpl. now rewrite Hc.
    + exists []. split; reflexivity.
Qed.

Lemma whitespaceOnly_rev (s : jsstring) :
  whitespaceOnly s -> whitespaceOnly (rev s).
Proof.
  unfold whitespaceOnly. rewrite !forallb_forall.
  intros H x Hx. apply H. now apply in_rev.
Qed.

Lemma trimEnd_decompose (s : jsstring) :
  exists post, s = trimEnd s ++ post /\ whitespaceOnly post.
Proof.
  destruct (trimStart_decompose (rev s)) as [pre [E W]].
  exists (rev pre). split.
  - unfold trimEnd. rewrite <- rev_app_distr, <- E. symmetry.
    apply rev_involutive.
  - now apply whitespaceOnly_rev.
Qed.

Lemma trim_decompose (s : jsstring) :
  exists pre post,
    s = pre ++ trim s ++ post /\ whitespaceOnly pre /\ whitespaceOnly post.
Proof.
  destruct (trimStart_decompose s) as [pre [E W]].
  destruct (trimEnd_decompose (trimStart s)) as [post [E' W']].
  exists pre, post. split; [|split; assumption].
  unfold trim. now rewrite <- E', <- E.
Qed.

Lemma trimEnd_last (s r : jsstring) (c : N) :
  trimEnd s = r ++ [c] -> isWhiteSpace c = false.
Proof.
  unfold trimEnd. intros E.
  apply (f_equal (@rev N)) in E. rewrite rev_involutive, rev_app_distr in E.
  simpl in E. exact (trimStart_head _ _ _ E).
Qed.

Lemma trim_ends (s : jsstring) :
  trim s <> [] ->
  (exists c r, trim s = c :: r /\ isWhiteSpace c = false)
  /\ (exists r c, trim s = r ++ [c] /\ isWhiteSpace c = false).
Proof.
  intros Hne. split.
  - destruct (trim s) as [|c r] eqn:E; [congruence|].
    exists c, r. split; [reflexivity|].
    rewrite <- trim_idempotent in E. unfold trim at 1 in E.
    destruct (trimStart (trim s)) as [|c' r'] eqn:E'.
    + discriminate.
    + pose proof (trimStart_head _ _ _ E') as Hc'.
      rewrite (trimEnd_cons c' r' Hc') in E. injection E as -> _. exact Hc'.
  - destruct (exists_last Hne) as [r [c E]].
    exists r, c. split; [exact E|].
    exact (trimEnd_last _ _ _ E).
Qed.

(** X7. When the field holds something other than whitespace,
    [handleSend] sets the query to the text of the field without the
    whitespace around it: the field is some whitespace, the query, and
    some whitespace again, and the query neither starts nor ends with a
    whitespace character.  The field itself is left as typed. *)
Theorem X7_query_is_the_field_without_margins (w : World) :
  ~ whitespaceOnly (input (ui w)) ->
  input (ui (handleSend w)) = input (ui w)
  /\ (exists pre post,
         input (ui w) = pre ++ query (ui (handleSend w)) ++ post
         /\ whitespaceOnly pre /\ whitespaceOnly post)
  /\ (exists c r, query (ui (handleSend w)) = c :: r
                  /\ isWhiteSpace c = false)
  /\ (exists r c, query (ui (handleSend w)) = r ++ [c]
                  /\ isWhiteSpace c = false).
Proof.
  intros Hws.
  assert (Hne : trim (input (ui w)) <> []).
  { intros E. apply Hws.
    destruct (trim_decompose (input (ui w))) as [pre [post [D [Wp Wq]]]].
    rewrite E in D. simpl in D. rewrite D. unfold whitespaceOnly in *.
    rewrite forallb_app, Wp, Wq. reflexivity. }
  rewrite (handleSend_fresh w Hne). cbn [setQuery ui query input].
  split; [reflexivity|]. split; [apply trim_decompose|].
  apply trim_ends, Hne.
Qed.

Lemma X7_witness_padded_wish :
  ~ whitespaceOnly (input (ui Samples.retyped))
  /\ input (ui Samples.retyped)
     = [32%N] ++ query (ui (handleSend Samples.retyped)) ++ [32%N]
  /\ exists c r, query (ui (handleSend Samples.retyped)) = c :: r
                 /\ isWhiteSpace c = false.
Proof.
  assert (H : ~ whitespaceOnly (input (ui Samples.retyped)))
    by (intros E; discriminate E).
  split; [exact H|]. split; [reflexivity|].
  exact (proj1 (proj2 (proj2
           (X7_query_is_the_field_without_margins Samples.retyped H)))).
Defined.

End Promotion.

(** ** Clicks, keys and who writes which cell *)

Section Events.
Import Recommender Measures.

Variable cfg : Variant.

Lemma trim_empty_iff (s : jsstring) : trim s = [] <-> whitespaceOnly s.
Proof.
  split; [|apply trim_whitespaceOnly].
  intros E. destruct (trim_decompose s) as [pre [post [D [Wp Wq]]]].
  rewrite E in D. simpl in D. rewrite D. unfold whitespaceOnly in *.
  rewrite forallb_app, Wp, Wq. reflexivity.
Qed.

(** X8. A click on the button leaves the component, the outstanding
    requests and the log exactly as they were if and only if the field is
    blank or its trimmed text is the current query; in every other case
    it appends [setLoading(true)] and one POST to the log. *)
Theorem X8_click_is_idle_iff (w : World) :
  (step cfg w Click = w
   <-> (whitespaceOnly (input (ui w))
        \/ trim (input (ui w)) = query (ui w)))
  /\ (step cfg w Click <> w ->
      log (step cfg w Click)
      = log w ++ [SetLoading true;
                  Post (requestOf cfg (trim (input (ui w))))]).
Proof.
  assert (Fresh : trim (input (ui w)) <> [] ->
                  trim (input (ui w)) <> query (ui w) ->
                  log (step cfg w Click)
                  = log w ++ [SetLoading true;
                              Post (requestOf cfg (trim (input (ui w))))]).
  { intros Hne Hdiff. rewrite (click_fresh cfg w Hne Hdiff).
    rewrite fetchData_log. reflexivity. }
  assert (Idle : whitespaceOnly (input (ui w))
                 \/ trim (input (ui w)) = query (ui w) ->
                 step cfg w Click = w).
  { intros [H|H].
    - apply click_when_handler_idle, handleSend_blank. now apply trim_empty_iff.
    - apply click_when_handler_idle, handleSend_repeat, H. }
  assert (Dec : (whitespaceOnly (input (ui w))
                 \/ trim (input (ui w)) = query (ui w))
                \/ (trim (input (ui w)) <> []
                    /\ trim (input (ui w)) <> query (ui w))).
  { destruct (trim (input (ui w))) as [|c r] eqn:Et.
    - left. left. now apply trim_empty_iff.
    - destruct (same (c :: r) (query (ui w))) eqn:Es.
      + left. right. now apply same_eq.
      + right. split; [discriminate|].
        intros E. rewrite <- E, same_refl in Es. discriminate. }
  split; [split|].
  - intros E. destruct Dec as [D|[Hne Hdiff]]; [exact D|].
    pose proof (Fresh Hne Hdiff) as L. rewrite E in L.
    apply (f_equal (@List.length Effect)) in L.
    rewrite length_app in L. simpl in L. lia.
  - exact Idle.
  - intros Hchg. destruct Dec as [D|[Hne Hdiff]].
    + contradiction (Hchg (Idle D)).
    + exact (Fresh Hne Hdiff).
Qed.

(** X9. Where the text field has the key handler, Enter does exactly
    what a click does, and every other key does nothing. *)
Theorem X9_enter_is_a_click (w : World) (k : jsstring) :
  hasKeyDown cfg = true ->
  step cfg w (KeyDown (lit "Enter")) = step cfg w Click
  /\ (k <> lit "Enter" -> step cfg w (KeyDown k) = w).
Proof.
  intros H. simpl. rewrite H. unfold onKeyDown. split.
  - now rewrite same_refl.
  - intros Hk. destruct (same k (lit "Enter")) eqn:E.
    + apply same_eq in E. contradiction.
    + apply commit_unchanged.
Qed.

Lemma click_cases (w : World) :
  step cfg w Click = w
  \/ step cfg w Click = fetchData cfg (setQuery (trim (input (ui w))) w).
Proof.
  destruct (step_cases cfg w Click)
    as [E | [[v E] | [[_ E] | [n [s [r [D _]]]]]]].
  - left. exact E.
  - destruct (trim (input (ui w))) as [|c r] eqn:Et.
    + left. apply click_when_handler_idle, handleSend_blank, Et.
    + destruct (same (c :: r) (query (ui w))) eqn:Es.
      * apply same_eq in Es. left.
        apply click_when_handler_idle, handleSend_repeat. congruence.
      * right. rewrite <- Et. apply click_fresh.
        -- rewrite Et. discriminate.
        -- rewrite Et. intros E'. rewrite <- E', same_refl in Es.
           discriminate.
  - right. exact E.
  - discriminate D.
Qed.

Lemma keyDown_cases (w : World) (k : jsstring) :
  step cfg w (KeyDown k) = w \/ step cfg w (KeyDown k) = step cfg w Click.
Proof.
  simpl. destruct (hasKeyDown cfg); [|left; reflexivity].
  unfold onKeyDown. destruct (same k (lit "Enter")).
  - right. reflexivity.
  - left. apply commit_unchanged.
Qed.

(** X10. Only the settling of a request writes the product list: no
    edit, click or key press changes it.  Only a click or Enter writes the
    query, and nothing but an edit writes the field: the settling of a
    request leaves both as they are, and a submission does not clear the
    field. *)
Theorem X10_who_writes_what (w : World) (e : Event) :
  (fromUser e = true -> products (ui (step cfg w e)) = products (ui w))
  /\ (fromUser e = false ->
      query (ui (step cfg w e)) = query (ui w)
      /\ input (ui (step cfg w e)) = input (ui w))
  /\ ((forall v, e <> Change v) ->
      input (ui (step cfg w e)) = input (ui w)).
Proof.
  assert (Click_ok : products (ui (step cfg w Click)) = products (ui w)
                     /\ input (ui (step cfg w Click)) = input (ui w)).
  { destruct (click_cases w) as [-> | ->]; split; reflexivity. }
  destruct e as [v| |k|n s].
  - repeat split; try discriminate.
    intros H. contradiction (H v eq_refl).
  - destruct Click_ok as [P I]. repeat split; try discriminate; intros _.
    + exact P.
    + exact I.
  - destruct Click_ok as [P I].
    destruct (keyDown_cases w k) as [-> | ->];
      repeat split; try discriminate; intros _; assumption.
  - assert (Q : query (ui (step cfg w (Settle n s))) = query (ui w)
                /\ input (ui (step cfg w (Settle n s))) = input (ui w)).
    { simpl. destruct (nth_error (pending w) n); [|split; reflexivity].
      unfold fetchData_settled. destruct (tryBlock s); split; reflexivity. }
    split; [discriminate|]. split; [intros _; exact Q|].
    intros _. exact (proj2 Q).
Qed.

End Events.

Lemma X8_witness_first_click :
  Recommender.step Samples.live Samples.typed Recommender.Click
  <> Samples.typed
  /\ Recommender.log
       (Recommender.step Samples.live Samples.typed Recommender.Click)
     = [Recommender.SetLoading true;
        Recommender.Post (Recommender.requestOf Samples.live Samples.wish)].
Proof.
  assert (H : Recommender.step Samples.live Samples.typed Recommender.Click
              <> Samples.typed) by discriminate.
  split; [exact H|].
  exact (proj2 (X8_click_is_idle_iff Samples.live Samples.typed) H).
Defined.

Lemma X9_witness_live_variant :
  Recommender.hasKeyDown Samples.live = true
  /\ Recommender.step Samples.live Samples.typed
       (Recommender.KeyDown (lit "Enter"))
     = Recommender.step Samples.live Samples.typed Recommender.Click
  /\ (lit "Tab" <> lit "Enter" ->
      Recommender.step Samples.live Samples.typed
        (Recommender.KeyDown (lit "Tab")) = Samples.typed).
Proof.
  split; [reflexivity|].
  exact (X9_enter_is_a_click Samples.live Samples.typed (lit "Tab") eq_refl).
Defined.

Lemma X10_witness_click_keeps_list :
  Measures.fromUser Recommender.Click = true
  /\ Recommender.products (Recommender.ui
       (Recommender.step Samples.live Samples.retyped Recommender.Click))
     = Recommender.products (Recommender.ui Samples.retyped).
Proof.
  split; [reflexivity|].
  apply (proj1 (X10_who_writes_what Samples.live Samples.retyped
                  Recommender.Click)).
  reflexivity.
Defined.

(** ** Requests across a whole run *)

Section Runs.
Import Recommender Measures.

Variable cfg : Variant.

Lemma settledCount_app (l1 l2 : list Effect) :
  settledCount (l1 ++ l2) = (settledCount l1 + settledCount l2)%nat.
Proof.
  induction l1 as [|e l1 IH]; simpl; [reflexivity|].
  destruct e as [[|]| | |]; simpl; now rewrite IH.
Qed.

Lemma removeNth_length {A : Type} (l : list A) (n : nat) (x : A) :
  nth_error l n = Some x ->
  S (List.length (removeNth n l)) = List.length l.
Proof.
  revert n. induction l as [|a l IH]; intros [|n] H; simpl in *;
    try discriminate; [reflexivity|].
  now rewrite (IH n H).
Qed.

Lemma fetchData_settled_settledCount (s : Settlement) (w : World) :
  settledCount (log (fetchData_settled s w)) = S (settledCount (log w)).
Proof.
  rewrite fetchData_settled_log, settledCount_app.
  destruct (tryBlock s); simpl; lia.
Qed.

(** X11. In every run, each request posted is either still outstanding
    or has settled exactly once: the number of POSTs equals the number of
    outstanding requests plus the number of times [setLoading(false)] was
    called. *)
Theorem X11_every_post_is_pending_or_settled (events : list Event) :
  List.length (posted (log (run cfg events)))
  = (List.length (pending (run cfg events))
     + settledCount (log (run cfg events)))%nat.
Proof.
  apply (run_invariant cfg
           (fun w => List.length (posted (log w))
                     = (List.length (pending w) + settledCount (log w))%nat)).
  - reflexivity.
  - intros w e H.
    destruct (step_cases cfg w e)
      as [-> | [[v ->] | [[_ ->] | [n [s [r [_ [Hn ->]]]]]]]].
    + exact H.
    + exact H.
    + rewrite fetchData_log, posted_app, settledCount_app, length_app.
      simpl. rewrite length_app. simpl. lia.
    + rewrite fetchData_settled_posted, fetchData_settled_pending,
        fetchData_settled_settledCount.
      simpl. pose proof (removeNth_length (pending w) n r Hn). lia.
Qed.

(** X12. In every run, either the query is still unset and nothing has
    been posted, or the query is set and the request posted last carries
    exactly the current query.  Once set, the query is never empty
    again. *)
Theorem X12_last_post_carries_the_query (events : list Event) :
  ((query (ui (run cfg events)) = [] /\ posted (log (run cfg events)) = [])
   \/ (query (ui (run cfg events)) <> []
       /\ exists earlier,
            posted (log (run cfg events))
            = earlier ++ [requestOf cfg (query (ui (run cfg events)))]))
  /\ (forall e,
         query (ui (run cfg events)) <> [] ->
         query (ui (step cfg (run cfg events) e)) <> []).
Proof.
  split.
  - apply (run_invariant cfg
             (fun w => (query (ui w) = [] /\ posted (log w) = [])
                       \/ (query (ui w) <> []
                           /\ exists earlier,
                                posted (log w)
                                = earlier ++ [requestOf cfg (query (ui w))]))).
    + left. split; reflexivity.
    + intros w e H.
      destruct (step_cases cfg w e)
        as [-> | [[v ->] | [[Hne ->] | [n [s [r [_ [_ ->]]]]]]]].
      * exact H.
      * exact H.
      * right. split; [exact Hne|].
        exists (posted (log w)).
        rewrite fetchData_log, posted_app. reflexivity.
      * rewrite fetchData_settled_query, fetchData_settled_posted. exact H.
  - intros e H.
    destruct (step_cases cfg (run cfg events) e)
      as [-> | [[v ->] | [[Hne ->] | [n [s [r [_ [_ ->]]]]]]]].
    + exact H.
    + exact H.
    + exact Hne.
    + rewrite fetchData_settled_query. exact H.
Qed.

(** X13. When two or more requests are outstanding and one of them
    settles, the loading flag is cleared although a request is still
    outstanding; the number of outstanding requests drops by one. *)
Theorem X13_first_answer_hides_the_spinner
        (w : World) (n : nat) (s : Settlement) (r : Request) :
  nth_error (pending w) n = Some r ->
  (2 <= List.length (pending w))%nat ->
  loading (ui (step cfg w (Settle n s))) = false
  /\ S (List.length (pending (step cfg w (Settle n s))))
     = List.length (pending w)
  /\ pending (step cfg w (Settle n s)) <> [].
Proof.
  intros Hn H2. simpl. rewrite Hn. split; [reflexivity|].
  rewrite fetchData_settled_pending. simpl.
  pose proof (removeNth_length (pending w) n r Hn) as L.
  split; [exact L|].
  intros E. rewrite E in L. simpl in L. lia.
Qed.

(** X14. With several requests outstanding, the list shows the answer of
    the request that settles last, whichever was posted first: after two
    settlements the list is the parsed list of the second one (empty if it
    failed), whatever the first one delivered. *)
Theorem X14_last_to_settle_wins
        (w : World) (n m : nat) (s1 s2 : Settlement) (r1 r2 : Request) :
  nth_error (pending w) n = Some r1 ->
  nth_error (pending (step cfg w (Settle n s1))) m = Some r2 ->
  products (ui (step cfg (step cfg w (Settle n s1)) (Settle m s2)))
  = match tryBlock s2 with inr l => l | inl _ => [] end.
Proof.
  intros Hn Hm.
  assert (E : forall w' , nth_error (pending w') m = Some r2 ->
                          products (ui (step cfg w' (Settle m s2)))
                          = match tryBlock s2 with inr l => l | inl _ => [] end).
  { intros w' H. simpl. rewrite H. apply fetchData_settled_products. }
  exact (E _ Hm).
Qed.

(** X15. A whole cycle from rest: with no request outstanding, a text
    that is not blank and differs from the current query is submitted and
    its request is fulfilled with a JSON object.  Afterwards no request is
    outstanding, the loading flag is false, the query is the trimmed text,
    the field still holds the text as typed, the list is exactly the cards
    of the answer, and exactly one request was posted, carrying the
    trimmed text. *)
Theorem X15_submit_then_answer
        (w : World) (S : jsstring) (c : CardsField) :
  pending w = [] ->
  trim S <> [] ->
  trim S <> query (ui w) ->
  pending (step cfg (submit cfg S w) (Settle 0 (Fulfilled (DataObject c))))
  = []
  /\ ui (step cfg (submit cfg S w) (Settle 0 (Fulfilled (DataObject c))))
     = {| query := trim S; input := S;
          products := cardsOrEmpty c; loading := false |}
  /\ posted (log (step cfg (submit cfg S w)
                     (Settle 0 (Fulfilled (DataObject c)))))
     = posted (log w) ++ [requestOf cfg (trim S)].
Proof.
  intros Hp Hne Hdiff. unfold submit.
  change (step cfg w (Change S)) with (setInput S w).
  rewrite (click_fresh cfg (setInput S w)) by (simpl; assumption).
  set (w1 := fetchData cfg (setQuery (trim (input (ui (setInput S w))))
                              (setInput S w))).
  assert (P : pending w1 = [requestOf cfg (trim S)])
    by (unfold w1; simpl; rewrite Hp; reflexivity).
  assert (L : posted (log w1) = posted (log w) ++ [requestOf cfg (trim S)])
    by (unfold w1; rewrite fetchData_log, posted_app; reflexivity).
  assert (E : step cfg w1 (Settle 0 (Fulfilled (DataObject c)))
              = fetchData_settled (Fulfilled (DataObject c)) (settle 0 w1))
    by (unfold step; rewrite P; reflexivity).
  rewrite E. split; [|split].
  - rewrite fetchData_settled_pending. unfold settle. cbn [pending].
    rewrite P. reflexivity.
  - reflexivity.
  - rewrite fetchData_settled_posted. exact L.
Qed.

End Runs.

Lemma X13_witness_two_outstanding :
  nth_error (Recommender.pending Measures.twoOutstanding) 1
  = Some (Recommender.requestOf Samples.live (lit "keyboard"))
  /\ (2 <= List.length (Recommender.pending Measures.twoOutstanding))%nat
  /\ Recommender.loading (Recommender.ui Measures.twoOutstanding) = true
  /\ Recommender.loading (Recommender.ui
       (Recommender.step Samples.live Measures.twoOutstanding
          (Recommender.Settle 1 (Recommender.Rejected Recommender.NetworkError))))
     = false
  /\ Recommender.pending
       (Recommender.step Samples.live Measures.twoOutstanding
          (Recommender.Settle 1 (Recommender.Rejected Recommender.NetworkError)))
     <> [].
Proof.
  split; [reflexivity|]. split; [simpl; lia|]. split; [reflexivity|].
  destruct (X13_first_answer_hides_the_spinner Samples.live
              Measures.twoOutstanding 1%nat
              (Recommender.Rejected Recommender.NetworkError)
              (Recommender.requestOf Samples.live (lit "keyboard"))
              eq_refl ltac:(simpl; lia)) as [Hl [_ Hp]].
  split; [exact Hl | exact Hp].
Defined.

Lemma X14_witness_stale_answer :
  Recommender.query (Recommender.ui Measures.twoOutstanding) = lit "keyboard"
  /\ Recommender.products (Recommender.ui
       (Recommender.step Samples.live
          (Recommender.step Samples.live Measures.twoOutstanding
             (Recommender.Settle 1
                (Recommender.Fulfilled (Recommender.DataObject
                   (Recommender.CardsArray [Samples.productY])))))
          (Recommender.Settle 0
             (Recommender.Fulfilled (Recommender.DataObject
                (Recommender.CardsArray [Samples.productX]))))))
     = [Samples.productX].
Proof.
  split; [reflexivity|].
  exact (X14_last_to_settle_wins Samples.live Measures.twoOutstanding
           1%nat 0%nat
           (Recommender.Fulfilled (Recommender.DataObject
              (Recommender.CardsArray [Samples.productY])))
           (Recommender.Fulfilled (Recommender.DataObject
              (Recommender.CardsArray [Samples.productX])))
           (Recommender.requestOf Samples.live (lit "keyboard"))
           (Recommender.requestOf Samples.live (lit "mouse"))
           eq_refl eq_refl).
Defined.

Lemma X15_witness_first_wish :
  Recommender.pending (Recommender.mounted Samples.live) = []
  /\ trim Samples.wish <> []
  /\ trim Samples.wish
     <> Recommender.query (Recommender.ui (Recommender.mounted Samples.live))
  /\ Recommender.ui
       (Recommender.step Samples.live
          (Recommender.submit Samples.live Samples.wish
             (Recommender.mounted Samples.live))
          (Recommender.Settle 0
             (Recommender.Fulfilled (Recommender.DataObject
                (Recommender.CardsArray [Samples.productX])))))
     = {| Recommender.query := trim Samples.wish;
          Recommender.input := Samples.wish;
          Recommender.products := [Samples.productX];
          Recommender.loading := false |}.
Proof.
  split; [reflexivity|]. split; [discriminate|]. split; [discriminate|].
  apply (X15_submit_then_answer Samples.live
           (Recommender.mounted Samples.live) Samples.wish
           (Recommender.CardsArray [Samples.productX]));
    [reflexivity | discriminate | discriminate].
Defined.

(** ** The variants side by side *)

Section Variants.
Import Recommender Measures.

Lemma ui_after_click (cfg1 cfg2 : Variant) (w1 w2 : World) :
  ui w1 = ui w2 ->
  List.length (pending w1) = List.length (pending w2) ->
  ui (step cfg1 w1 Click) = ui (step cfg2 w2 Click)
  /\ List.length (pending (step cfg1 w1 Click))
     = List.length (pending (step cfg2 w2 Click)).
Proof.
  intros Hu Hp.
  assert (T : trim (input (ui w1)) = trim (input (ui w2))) by now rewrite Hu.
  assert (Q : query (ui w1) = query (ui w2)) by now rewrite Hu.
  destruct (trim (input (ui w1))) as [|c r] eqn:Et.
  - rewrite (click_when_handler_idle cfg1 w1)
      by (apply handleSend_blank; exact Et).
    rewrite (click_when_handler_idle cfg2 w2)
      by (apply handleSend_blank; now rewrite <- T).
    now split.
  - destruct (same (c :: r) (query (ui w1))) eqn:Es.
    + apply same_eq in Es.
      rewrite (click_when_handler_idle cfg1 w1)
        by (apply handleSend_repeat; congruence).
      rewrite (click_when_handler_idle cfg2 w2)
        by (apply handleSend_repeat; congruence).
      now split.
    + assert (D : c :: r <> query (ui w1)).
      { intros E. rewrite <- E, same_refl in Es. discriminate. }
      rewrite (click_fresh cfg1 w1) by (rewrite Et; [discriminate || exact D]).
      rewrite (click_fresh cfg2 w2)
        by (rewrite <- T; [discriminate || congruence]).
      simpl. rewrite !length_app, Hu, Hp. split; reflexivity.
Qed.

Lemma ui_after_step (cfg1 cfg2 : Variant) (w1 w2 : World) (e : Event) :
  hasKeyDown cfg1 = hasKeyDown cfg2 \/ isKeyDown e = false ->
  ui w1 = ui w2 ->
  List.length (pending w1) = List.length (pending w2) ->
  ui (step cfg1 w1 e) = ui (step cfg2 w2 e)
  /\ List.length (pending (step cfg1 w1 e))
     = List.length (pending (step cfg2 w2 e)).
Proof.
  intros Hk Hu Hp. destruct e as [v| |k|n s].
  - simpl. rewrite Hu, Hp. split; reflexivity.
  - now apply ui_after_click.
  - destruct Hk as [Hk|Hk]; [|discriminate Hk].
    pose proof (ui_after_click cfg1 cfg2 w1 w2 Hu Hp) as C.
    simpl. rewrite <- Hk. destruct (hasKeyDown cfg1); [|now split].
    unfold onKeyDown. destruct (same k (lit "Enter")).
    + exact C.
    + rewrite !commit_unchanged. now split.
  - simpl.
    destruct (nth_error (pending w1) n) as [r1|] eqn:E1;
      destruct (nth_error (pending w2) n) as [r2|] eqn:E2.
    + split.
      * unfold fetchData_settled. destruct (tryBlock s); simpl;
          now rewrite Hu.
      * rewrite !fetchData_settled_pending. simpl.
        pose proof (removeNth_length _ _ _ E1).
        pose proof (removeNth_length _ _ _ E2). lia.
    + apply nth_error_None in E2.
      assert (n < List.length (pending w1))%nat
        by (apply nth_error_Some; congruence). lia.
    + apply nth_error_None in E1.
      assert (n < List.length (pending w2))%nat
        by (apply nth_error_Some; congruence). lia.
    + now split.
Qed.

Lemma ui_after_fold (cfg1 cfg2 : Variant) (events : list Event) :
  hasKeyDown cfg1 = hasKeyDown cfg2
  \/ forallb (fun e => negb (isKeyDown e)) events = true ->
  forall w1 w2,
    ui w1 = ui w2 ->
    List.length (pending w1) = List.length (pending w2) ->
    ui (fold_left (step cfg1) events w1) = ui (fold_left (step cfg2) events w2).
Proof.
  induction events as [|e events IH]; intros Hk w1 w2 Hu Hp.
  - exact Hu.
  - simpl.
    assert (He : hasKeyDown cfg1 = hasKeyDown cfg2 \/ isKeyDown e = false).
    { destruct Hk as [Hk|Hk]; [left; exact Hk|].
      simpl in Hk. apply andb_true_iff in Hk as [Hk _].
      right. now apply negb_true_iff. }
    assert (Hr : hasKeyDown cfg1 = hasKeyDown cfg2
                 \/ forallb (fun e => negb (isKeyDown e)) events = true).
    { destruct Hk as [Hk|Hk]; [left; exact Hk|].
      simpl in Hk. apply andb_true_iff in Hk as [_ Hk]. right. exact Hk. }
    destruct (ui_after_step cfg1 cfg2 w1 w2 e He Hu Hp) as [Hu' Hp'].
    now apply IH.
Qed.

(** X16. The URL and the name of the body field have no influence on
    what the user sees: two variants of the component that agree on the
    key handler go through the same query, field, product list and loading
    flag on every sequence of events; variants that differ in the key
    handler do so on every sequence without a key press. *)
Theorem X16_variants_show_the_same (cfg1 cfg2 : Variant)
        (events : list Event) :
  hasKeyDown cfg1 = hasKeyDown cfg2
  \/ forallb (fun e => negb (isKeyDown e)) events = true ->
  ui (run cfg1 events) = ui (run cfg2 events).
Proof.
  intros Hk. unfold run. apply ui_after_fold; [exact Hk | |]; reflexivity.
Qed.

(** X17. When NEXT_PUBLIC_API_URL is not set, every request of every
    run goes to the relative URL "undefined/recommendation". *)
Theorem X17_unset_base_url (events : list Event) :
  Forall (fun r => url r = lit "undefined/recommendation")
         (posted (log (run (part_001 None) events))).
Proof.
  destruct (contract_holds (part_001 None) events) as [_ H].
  apply (Forall_impl _ (P := wellFormed (endpoint (part_001 None))
                                        (payloadKey (part_001 None)))).
  - intros r [_ [U _]]. exact U.
  - exact H.
Qed.

(** X18. What a settlement writes to the console: a rejected promise
    logs its error, a body that is the JSON value [null] logs the
    TypeError of the property access, and both leave the list empty; a
    body that arrives as text (an empty body among them) empties the list
    without any console entry; a JSON object never causes one. *)
Theorem X18_console_entries (w : World) :
  (forall err,
      errorsLogged (log (fetchData_settled (Rejected err) w))
      = errorsLogged (log w) ++ [err]
      /\ products (ui (fetchData_settled (Rejected err) w)) = [])
  /\ (errorsLogged (log (fetchData_settled (Fulfilled DataNullish) w))
      = errorsLogged (log w) ++ [TypeError]
      /\ products (ui (fetchData_settled (Fulfilled DataNullish) w)) = [])
  /\ (forall text,
         errorsLogged
           (log (fetchData_settled (Fulfilled (DataPrimitive text)) w))
         = errorsLogged (log w)
         /\ products (ui (fetchData_settled
                            (Fulfilled (DataPrimitive text)) w)) = [])
  /\ (forall c,
         errorsLogged (log (fetchData_settled (Fulfilled (DataObject c)) w))
         = errorsLogged (log w)).
Proof.
  split; [|split; [|split]].
  - intros err. split; [|reflexivity].
    rewrite fetchData_settled_log, errorsLogged_app. reflexivity.
  - split; [|reflexivity].
    rewrite fetchData_settled_log, errorsLogged_app. reflexivity.
  - intros text. split; [|reflexivity].
    rewrite fetchData_settled_log, errorsLogged_app. apply app_nil_r.
  - intros c.
    rewrite fetchData_settled_log, errorsLogged_app. apply app_nil_r.
Qed.

(** X19. The grid shows one card per record of the list, in the order of the
    list, each with the title, the link and the star row of its record and
    a price text that ends in " TL"; it is empty exactly when the list
    is; and the spinner is shown exactly while the loading flag is set. *)
Theorem X19_one_card_per_record (tr loc : number -> jsstring) (w : World) :
  map Card.heading (grid (ProductRecommender tr loc w))
  = map title (products (ui w))
  /\ map Card.buyHref (grid (ProductRecommender tr loc w))
     = map link (products (ui w))
  /\ map Card.starRow (grid (ProductRecommender tr loc w))
     = map (fun p => Card.renderStars (rating p)) (products (ui w))
  /\ map Card.priceText (grid (ProductRecommender tr loc w))
     = map (fun p => tr (price p) ++ lit " TL") (products (ui w))
  /\ List.length (grid (ProductRecommender tr loc w))
     = List.length (products (ui w))
  /\ (grid (ProductRecommender tr loc w) = [] <-> products (ui w) = [])
  /\ spinner (ProductRecommender tr loc w) = loading (ui w).
Proof.
  unfold ProductRecommender. cbn [grid spinner].
  destruct (products (ui w)) as [|p ps].
  - repeat split; reflexivity.
  - change (0 <? Z.of_nat (List.length (p :: ps)))%Z with true. cbn iota.
    rewrite !map_map, length_map. repeat split; try reflexivity; discriminate.
Qed.

End Variants.

Lemma X16_witness_prompt_and_query :
  Recommender.hasKeyDown Recommender.part_003
  = Recommender.hasKeyDown Recommender.part_004
  /\ Recommender.ui (Recommender.run Recommender.part_003 Samples.resubmitted)
     = Recommender.ui (Recommender.run Recommender.part_004 Samples.resubmitted)
  /\ Recommender.ui (Recommender.run Samples.live Samples.resubmitted)
     = Recommender.ui (Recommender.run Recommender.part_003 Samples.resubmitted).
Proof.
  split; [reflexivity|]. split.
  - apply (X16_variants_show_the_same Recommender.part_003
             Recommender.part_004 Samples.resubmitted).
    left. reflexivity.
  - apply (X16_variants_show_the_same Samples.live Recommender.part_003
             Samples.resubmitted).
    right. reflexivity.
Defined.

Lemma X12_witness_query_stays_set :
  Recommender.query (Recommender.ui
    (Recommender.run Samples.live Samples.resubmitted)) <> []
  /\ Recommender.query (Recommender.ui
       (Recommender.step Samples.live
          (Recommender.run Samples.live Samples.resubmitted)
          (Recommender.Settle 0 (Recommender.Rejected Recommender.ParseError))))
     <> [].
Proof.
  assert (H : Recommender.query (Recommender.ui
                (Recommender.run Samples.live Samples.resubmitted)) <> [])
    by discriminate.
  split; [exact H|].
  exact (proj2 (X12_last_post_carries_the_query Samples.live
                  Samples.resubmitted)
           (Recommender.Settle 0 (Recommender.Rejected Recommender.ParseError))
           H).
Defined.
